(** * EmotiView: the service layer and the batch controller, embedded in Rocq

    The development follows the TypeScript sources:
    - [services/geminiService.ts]: [cleanJsonString], [analyzeSentimentBatch]
      (response checks, JSON normalisation, error classification);
    - the [App] component: [processBatch], [handleFileUpload],
      [downloadCSV];
    - [types.ts]: [SentimentType], [AnalysisResult], [BatchProgress],
      [ErrorDetails].

    JavaScript strings are sequences of UTF-16 code units; they are modelled as
    lists of [N].  Host built-ins that the sources call but do not define
    ([JSON.parse], [Number.prototype.toString], [String.prototype.toLowerCase],
    [Math.random], [Date.now], the remote endpoint) are section variables. *)

From Stdlib Require Import Strings.String Strings.Ascii.
From Stdlib Require Import Numbers.DecimalString.
From Stdlib Require Import List NArith ZArith QArith Bool Lia Arith.
From Stdlib Require Import Sorting.Permutation Sorting.Sorted.
Import ListNotations.
Close Scope Q_scope.

Set Implicit Arguments.
Set Warnings "-register-all".

(* ===================================================================== *)
(** * Part I: definitions                                                 *)
(* ===================================================================== *)

(** ** JavaScript strings *)

Definition char := N.
Definition jsstring := list char.

(** An ASCII literal of the source, as code units. *)
Definition lit (s : string) : jsstring :=
  map N_of_ascii (list_ascii_of_string s).

Definition LF : char := 10%N.
Definition CR : char := 13%N.
Definition BACKTICK : char := 96%N.
Definition DQUOTE : char := 34%N.
Definition LBRACKET : char := 91%N.
Definition RBRACKET : char := 93%N.

Fixpoint jsstring_eqb (a b : jsstring) : bool :=
  match a, b with
  | [], [] => true
  | x :: a', y :: b' => (x =? y)%N && jsstring_eqb a' b'
  | _, _ => false
  end.

(** [s.startsWith(p)] *)
Fixpoint startsWith (p s : jsstring) : bool :=
  match p, s with
  | [], _ => true
  | _ :: _, [] => false
  | a :: p', b :: s' => (a =? b)%N && startsWith p' s'
  end.

(** [s.endsWith(p)] *)
Definition endsWith (p s : jsstring) : bool :=
  startsWith (rev p) (rev s).

(** [s.includes(p)] *)
Fixpoint includes (p s : jsstring) : bool :=
  startsWith p s ||
  match s with
  | [] => false
  | _ :: s' => includes p s'
  end.

(** White space and line terminators removed by [String.prototype.trim]
    (ECMAScript WhiteSpace and LineTerminator productions). *)
Definition isWhiteSpace (c : char) : bool :=
  ((9 <=? c) && (c <=? 13) || (c =? 32) || (c =? 160) || (c =? 5760)
   || (8192 <=? c) && (c <=? 8202) || (c =? 8232) || (c =? 8233)
   || (c =? 8239) || (c =? 8287) || (c =? 12288) || (c =? 65279))%N.

Fixpoint trimStart (s : jsstring) : jsstring :=
  match s with
  | [] => []
  | c :: s' => if isWhiteSpace c then trimStart s' else s
  end.

Definition trimEnd (s : jsstring) : jsstring :=
  rev (trimStart (rev s)).

Definition trim (s : jsstring) : jsstring :=
  trimEnd (trimStart s).

(** [s.indexOf(c)] for a one-unit needle; -1 when absent. *)
Fixpoint indexOf_from (c : char) (s : jsstring) (i : Z) : Z :=
  match s with
  | [] => (-1)%Z
  | x :: s' => if (x =? c)%N then i else indexOf_from c s' (i + 1)%Z
  end.

Definition indexOf (c : char) (s : jsstring) : Z := indexOf_from c s 0%Z.

(** [s.lastIndexOf(c)] for a one-unit needle; -1 when absent. *)
Fixpoint lastIndexOf_from (c : char) (s : jsstring) (i found : Z) : Z :=
  match s with
  | [] => found
  | x :: s' =>
      lastIndexOf_from c s' (i + 1)%Z (if (x =? c)%N then i else found)
  end.

Definition lastIndexOf (c : char) (s : jsstring) : Z :=
  lastIndexOf_from c s 0%Z (-1)%Z.

(** [s.substring(a, b)]: both indices are clamped to [0, length] and swapped
    when [a > b]. *)
Definition clampIndex (len i : Z) : Z := Z.max 0 (Z.min i len).

Definition substring (s : jsstring) (a b : Z) : jsstring :=
  let len := Z.of_nat (length s) in
  let a' := clampIndex len a in
  let b' := clampIndex len b in
  let lo := Z.min a' b' in
  let hi := Z.max a' b' in
  firstn (Z.to_nat (hi - lo)) (skipn (Z.to_nat lo) s).

(** [a.slice(i, j)] on arrays, for non-negative indices. *)
Definition slice {A : Type} (l : list A) (i j : nat) : list A :=
  firstn (j - i) (skipn i l).

(** [parts.join(sep)] on an array of strings. *)
Fixpoint join (sep : jsstring) (parts : list jsstring) : jsstring :=
  match parts with
  | [] => []
  | [p] => p
  | p :: rest => p ++ sep ++ join sep rest
  end.

(** ** geminiService.ts: cleanJsonString *)

Definition FENCE : jsstring := lit "```".
Definition FENCE_JSON : jsstring := lit "```json".
Definition FENCE_JSON_LF : jsstring := FENCE_JSON ++ [LF].

(** Length of the match of [/```json\n?|```/] anchored at the head of [s];
    0 when the pattern does not match there.  The first alternative is tried
    first and its optional line feed is greedy. *)
Definition fenceMatchLength (s : jsstring) : nat :=
  if startsWith FENCE_JSON_LF s then 8
  else if startsWith FENCE_JSON s then 7
  else if startsWith FENCE s then 3
  else 0.

(** [str.replace(/```json\n?|```/g, '')]: one left-to-right pass; [skip] counts
    the code units of the current match that remain to be dropped. *)
Fixpoint stripFences_from (skip : nat) (s : jsstring) : jsstring :=
  match s with
  | [] => []
  | c :: rest =>
      match skip with
      | S k => stripFences_from k rest
      | O =>
          match fenceMatchLength s with
          | S k => stripFences_from k rest
          | O => c :: stripFences_from 0 rest
          end
      end
  end.

Definition stripFences (s : jsstring) : jsstring := stripFences_from 0 s.

Definition cleanJsonString (str : jsstring) : jsstring :=
  let clean := trim (stripFences str) in
  let start := indexOf LBRACKET clean in
  let end_ := lastIndexOf RBRACKET clean in
  if negb (start =? -1)%Z && negb (end_ =? -1)%Z
  then substring clean start (end_ + 1)%Z
  else clean.

(** The markdown-fenced form of a response body. *)
Definition fenced (body : jsstring) : jsstring :=
  FENCE_JSON_LF ++ body ++ LF :: FENCE.


(** ** JSON values and JavaScript numbers *)

(** The number values: the finite ones as rationals, the infinities and NaN. *)
Inductive number :=
| Finite (q : Q)
| Infinite (negative : bool)
| NaN.

(** Values produced by [JSON.parse].  The table of a [JObject] is the own
    property table of the parsed object; [lookupProp] reads it. *)
Inductive json :=
| JNull
| JBool (b : bool)
| JNumber (n : number)
| JString (s : jsstring)
| JArray (items : list json)
| JObject (props : list (jsstring * json)).

Fixpoint lookupProp (k : jsstring) (props : list (jsstring * json))
  : option json :=
  match props with
  | [] => None
  | (k', v) :: rest => if jsstring_eqb k k' then Some v else lookupProp k rest
  end.

(** ToBoolean on a number. *)
Definition numberTruthy (n : number) : bool :=
  match n with
  | Finite q => negb (Qeq_bool q 0%Q)
  | Infinite _ => true
  | NaN => false
  end.

(** ToBoolean on a value that may be [undefined] ([None]). *)
Definition truthy (v : option json) : bool :=
  match v with
  | None => false
  | Some JNull => false
  | Some (JBool b) => b
  | Some (JNumber n) => numberTruthy n
  | Some (JString s) => negb (jsstring_eqb s [])
  | Some (JArray _) => true
  | Some (JObject _) => true
  end.

(** [v || d] with a defined default. *)
Definition orDefault (v : option json) (d : json) : json :=
  match v with
  | Some x => if truthy v then x else d
  | None => d
  end.

(** ** types.ts *)

Inductive SentimentType := POSITIVE | NEGATIVE | NEUTRAL.

Definition sentimentValue (t : SentimentType) : jsstring :=
  match t with
  | POSITIVE => lit "Positive"
  | NEGATIVE => lit "Negative"
  | NEUTRAL => lit "Neutral"
  end.

(** The record built by the normaliser.  Its fields hold the values the code
    stores at run time: the declared types are not checked there. *)
Record NormalizedItem := {
  n_sentiment : json;
  n_emotion : json;
  n_emotionEmoji : json;
  n_isSarcastic : bool;
  n_confidence : number;
  n_keywords : list json;
  n_explanation : json
}.

Record AnalysisResult := {
  id : jsstring;
  text : option jsstring;
  fields : NormalizedItem;
  timestamp : N
}.

Record BatchProgress := {
  total : nat;
  processed : nat;
  errors : nat;
  bp_isProcessing : bool
}.

Record ErrorDetails := {
  title : jsstring;
  message : jsstring;
  solution : option jsstring;
  code : option jsstring;
  status : option N
}.

(** ** geminiService.ts: errors *)

Inductive ErrorCode :=
| AUTH_ERROR | RATE_LIMIT | SERVER_ERROR | SAFETY_BLOCK
| PARSE_ERROR | INVALID_REQUEST | UNKNOWN.

Definition ErrorCode_eqb (a b : ErrorCode) : bool :=
  match a, b with
  | AUTH_ERROR, AUTH_ERROR | RATE_LIMIT, RATE_LIMIT
  | SERVER_ERROR, SERVER_ERROR | SAFETY_BLOCK, SAFETY_BLOCK
  | PARSE_ERROR, PARSE_ERROR | INVALID_REQUEST, INVALID_REQUEST
  | UNKNOWN, UNKNOWN => true
  | _, _ => false
  end.

Definition codeName (c : ErrorCode) : jsstring :=
  match c with
  | AUTH_ERROR => lit "AUTH_ERROR"
  | RATE_LIMIT => lit "RATE_LIMIT"
  | SERVER_ERROR => lit "SERVER_ERROR"
  | SAFETY_BLOCK => lit "SAFETY_BLOCK"
  | PARSE_ERROR => lit "PARSE_ERROR"
  | INVALID_REQUEST => lit "INVALID_REQUEST"
  | UNKNOWN => lit "UNKNOWN"
  end.

(** [class GeminiError extends Error] *)
Record GeminiError := {
  ge_message : jsstring;
  ge_code : ErrorCode;
  ge_solution : option jsstring;
  ge_status : option N
}.

(** Any other thrown [Error]: its message ([''] when absent), its own
    [status] and the [status] of its [response], when present. *)
Record JsError := {
  err_message : jsstring;
  err_status : option N;
  err_response_status : option N
}.

Inductive Thrown :=
| ThrowGemini (e : GeminiError)
| ThrowError (e : JsError).

(** Completion of a block that may throw. *)
Inductive Completion (A : Type) :=
| Normal (a : A)
| Throw (t : Thrown).
Arguments Normal {A} a.
Arguments Throw {A} t.

Definition bind {A B : Type} (c : Completion A) (k : A -> Completion B)
  : Completion B :=
  match c with
  | Normal a => k a
  | Throw t => Throw t
  end.

Notation "x <- c ;; k" := (bind c (fun x => k))
  (at level 61, c at next level, right associativity).

(** [xs.map(f)] when [f] may throw: the first throw aborts the map. *)
Fixpoint mapM {A B : Type} (f : A -> Completion B) (xs : list A)
  : Completion (list B) :=
  match xs with
  | [] => Normal []
  | x :: rest =>
      y <- f x ;;
      ys <- mapM f rest ;;
      Normal (y :: ys)
  end.

(** A [TypeError]: an [Error] with a message and no status. *)
Definition typeError (m : jsstring) : JsError :=
  {| err_message := m; err_status := None; err_response_status := None |}.

(** The [TypeError] of a property read on [null] or [undefined] (messages as
    in V8). *)
Definition nullReadError (prop : jsstring) : JsError :=
  typeError
    (lit "Cannot read properties of null (reading '" ++ prop ++ lit "')").

Definition undefinedReadError (prop : jsstring) : JsError :=
  typeError
    (lit "Cannot read properties of undefined (reading '" ++ prop ++ lit "')").

(** [item.k] for the field names of the response schema: reading a property
    of [null] throws; values other than objects have none of these fields. *)
Definition getProp (item : json) (k : jsstring) : Completion (option json) :=
  match item with
  | JNull => Throw (ThrowError (nullReadError k))
  | JObject props => Normal (lookupProp k props)
  | _ => Normal None
  end.

(** The default of [emotionEmoji]: the string literal of line 161 as the
    source file holds it, the four code units U+F8FF U+00FC U+00F2 U+00EA
    (bytes EF A3 BF, C3 BC, C3 B2, C3 AA).  They are the UTF-8 bytes
    F0 9F 98 90 of the neutral face U+1F610 read as Mac OS Roman; the file
    does not hold the neutral face itself. *)
Definition DEFAULT_EMOJI : jsstring := [63743%N; 252%N; 242%N; 234%N].

Definition HALF : number := Finite (1 # 2)%Q.

(** Lines 158-166 of geminiService.ts: the callback of [parsedData.map]. *)
Definition normalizeItem (item : json) : Completion NormalizedItem :=
  sentiment <- getProp item (lit "sentiment") ;;
  emotion <- getProp item (lit "emotion") ;;
  emotionEmoji <- getProp item (lit "emotionEmoji") ;;
  isSarcastic <- getProp item (lit "isSarcastic") ;;
  confidence <- getProp item (lit "confidence") ;;
  keywords <- getProp item (lit "keywords") ;;
  explanation <- getProp item (lit "explanation") ;;
  Normal {|
    n_sentiment := orDefault sentiment (JString (sentimentValue NEUTRAL));
    n_emotion := orDefault emotion (JString (lit "Neutral"));
    n_emotionEmoji := orDefault emotionEmoji (JString DEFAULT_EMOJI);
    n_isSarcastic := truthy isSarcastic;
    n_confidence :=
      match confidence with Some (JNumber n) => n | _ => HALF end;
    n_keywords := match keywords with Some (JArray l) => l | _ => [] end;
    n_explanation :=
      orDefault explanation (JString (lit "No explanation provided."))
  |}.

Definition MODEL_NAME : jsstring := lit "gemini-2.5-flash".

Definition mkGeminiError (m : jsstring) (c : ErrorCode) (s : jsstring)
  (st : option N) : GeminiError :=
  {| ge_message := m; ge_code := c; ge_solution := Some s; ge_status := st |}.

Definition missingKeyError : GeminiError :=
  mkGeminiError (lit "API Key is missing") AUTH_ERROR
    (lit "Please configure your API key in the settings menu.") None.

Definition safetyBlockError : GeminiError :=
  mkGeminiError (lit "Analysis blocked by safety filters.") SAFETY_BLOCK
    (lit "The content may violate safety policies (harassment, hate speech, etc.). Try rephrasing the text.")
    None.

Definition emptyResponseError : GeminiError :=
  mkGeminiError (lit "Received empty response from AI model.") SERVER_ERROR
    (lit "The model returned an empty result. Please try again.") None.

Definition malformedJsonError : GeminiError :=
  mkGeminiError (lit "Failed to process model response.") PARSE_ERROR
    (lit "The AI returned malformed JSON. This is usually temporary, please retry.")
    None.

Definition invalidStructureError : GeminiError :=
  mkGeminiError (lit "Invalid response structure.") PARSE_ERROR
    (lit "Expected a list of results but got something else.") None.

Definition invalidKeyError (st : option N) : GeminiError :=
  mkGeminiError (lit "Invalid API Key or Permissions.") AUTH_ERROR
    (lit "Please verify your API key. Ensure it is valid, active, and has access to the Gemini API.")
    st.

Definition rateLimitError : GeminiError :=
  mkGeminiError (lit "Rate limit exceeded.") RATE_LIMIT
    (lit "You are sending requests too quickly. Please wait a moment before trying again, or reduce the batch size.")
    (Some 429%N).

Definition unavailableError : GeminiError :=
  mkGeminiError (lit "AI Service Unavailable.") SERVER_ERROR
    (lit "The Gemini service is currently overloaded. Please try again in a few minutes.")
    (Some 503%N).

Definition invalidRequestError : GeminiError :=
  mkGeminiError (lit "Invalid Request.") INVALID_REQUEST
    (lit "The request was malformed. Please check your input text for unsupported characters or format.")
    (Some 400%N).

Definition modelNotFoundError : GeminiError :=
  mkGeminiError (lit "Model Not Found.") INVALID_REQUEST
    (lit "The model '" ++ MODEL_NAME
       ++ lit "' was not found. It may be deprecated or not available in your region.")
    (Some 404%N).

Definition unknownError (st : option N) : GeminiError :=
  mkGeminiError (lit "An unexpected network or API error occurred.") UNKNOWN
    (lit "Check your internet connection and try again. If the issue persists, check the console for logs.")
    st.

(** [error.status || error.response?.status] *)
Definition errorStatus (e : JsError) : option N :=
  match err_status e with
  | Some s => if (s =? 0)%N then err_response_status e else Some s
  | None => err_response_status e
  end.

Definition statusIs (st : option N) (n : N) : bool :=
  match st with
  | Some s => (s =? n)%N
  | None => false
  end.

(** Lines 174-227 of geminiService.ts: the mapping of a caught error that is
    not a [GeminiError]. *)
Definition classifyJsError (e : JsError) : GeminiError :=
  let msg := err_message e in
  let st := errorStatus e in
  if includes (lit "401") msg || includes (lit "403") msg
     || includes (lit "API key") msg || statusIs st 401 || statusIs st 403
  then invalidKeyError st
  else if includes (lit "429") msg || includes (lit "Quota") msg
          || statusIs st 429
  then rateLimitError
  else if includes (lit "503") msg || includes (lit "Overloaded") msg
          || statusIs st 503
  then unavailableError
  else if statusIs st 400 || includes (lit "400") msg
  then invalidRequestError
  else if statusIs st 404 || includes (lit "404") msg
  then modelNotFoundError
  else unknownError st.

(** The [catch (error: any)] block of [analyzeSentimentBatch]. *)
Definition catchHandler (t : Thrown) : GeminiError :=
  match t with
  | ThrowGemini e => e
  | ThrowError e => classifyJsError e
  end.

(** ** geminiService.ts: the remote call and analyzeSentimentBatch *)

Record GenerateContentResponse := {
  candidates : option (list json);
  response_text : option jsstring
}.

(** The settled outcome of [await ai.models.generateContent(...)]: the call
    throws or it returns.  The code sets no timeout on the call, so a call
    that never settles leaves [analyzeSentimentBatch], and the batch that
    awaits it, waiting there for ever; such a call is not a value of this
    type.  Every statement below about a call or a batch that ends is a
    statement about remote calls that settle. *)
Inductive ApiReply :=
| ApiThrows (e : JsError)
| ApiReturns (r : GenerateContentResponse).

(** A request sent to the remote model: the credential and the texts of the
    prompt. *)
Record Request := {
  req_apiKey : jsstring;
  req_texts : list jsstring
}.

Inductive Outcome :=
| Resolved (rs : list NormalizedItem)
| Rejected (e : GeminiError).

(** The promise's outcome together with the requests that were sent. *)
Record ServiceResult := {
  sr_outcome : Outcome;
  sr_requests : list Request
}.

Section Service.

(** [JSON.parse]: [None] when it throws a [SyntaxError]. *)
Variable JSON_parse : jsstring -> option json.

(** Lines 118-166: the checks on a returned response. *)
Definition processResponse (response : GenerateContentResponse)
  : Completion (list NormalizedItem) :=
  match candidates response with
  | None | Some [] => Throw (ThrowGemini safetyBlockError)
  | Some (_ :: _) =>
      match response_text response with
      | None | Some [] => Throw (ThrowGemini emptyResponseError)
      | Some jsonText =>
          match JSON_parse (cleanJsonString jsonText) with
          | None => Throw (ThrowGemini malformedJsonError)
          | Some (JArray parsedData) => mapM normalizeItem parsedData
          | Some _ => Throw (ThrowGemini invalidStructureError)
          end
      end
  end.

(** The [try] block: the remote call, then the checks. *)
Definition tryBlock (generateContent : Request -> ApiReply) (req : Request)
  : Completion (list NormalizedItem) :=
  match generateContent req with
  | ApiThrows e => Throw (ThrowError e)
  | ApiReturns response => processResponse response
  end.

Definition analyzeSentimentBatch (generateContent : Request -> ApiReply)
  (texts : list jsstring) (apiKey : jsstring) : ServiceResult :=
  match apiKey with
  | [] => {| sr_outcome := Rejected missingKeyError; sr_requests := [] |}
  | _ :: _ =>
      match texts with
      | [] => {| sr_outcome := Resolved []; sr_requests := [] |}
      | _ :: _ =>
          let req := {| req_apiKey := apiKey; req_texts := texts |} in
          {| sr_outcome :=
               match tryBlock generateContent req with
               | Normal rs => Resolved rs
               | Throw t => Rejected (catchHandler t)
               end;
             sr_requests := [req] |}
      end
  end.

End Service.

(** ** The App component: its state *)

Inductive ToastType := success | error.

Record Toast := {
  toast_msg : jsstring;
  toast_type : ToastType
}.

(** The [useState] cells of [App] that the controller writes, and [network]:
    the requests that have reached the remote model, oldest first. *)
Record AppState := {
  apiKey : jsstring;
  isApiKeyModalOpen : bool;
  results : list AnalysisResult;
  isProcessing : bool;
  errorDetails : option ErrorDetails;
  batchProgress : BatchProgress;
  toast : option Toast;
  network : list Request
}.

Definition setApiKey (v : jsstring) (s : AppState) : AppState :=
  {| apiKey := v; isApiKeyModalOpen := isApiKeyModalOpen s;
     results := results s; isProcessing := isProcessing s;
     errorDetails := errorDetails s; batchProgress := batchProgress s;
     toast := toast s; network := network s |}.

Definition setIsApiKeyModalOpen (v : bool) (s : AppState) : AppState :=
  {| apiKey := apiKey s; isApiKeyModalOpen := v;
     results := results s; isProcessing := isProcessing s;
     errorDetails := errorDetails s; batchProgress := batchProgress s;
     toast := toast s; network := network s |}.

Definition setResults (f : list AnalysisResult -> list AnalysisResult)
  (s : AppState) : AppState :=
  {| apiKey := apiKey s; isApiKeyModalOpen := isApiKeyModalOpen s;
     results := f (results s); isProcessing := isProcessing s;
     errorDetails := errorDetails s; batchProgress := batchProgress s;
     toast := toast s; network := network s |}.

Definition setIsProcessing (v : bool) (s : AppState) : AppState :=
  {| apiKey := apiKey s; isApiKeyModalOpen := isApiKeyModalOpen s;
     results := results s; isProcessing := v;
     errorDetails := errorDetails s; batchProgress := batchProgress s;
     toast := toast s; network := network s |}.

Definition setErrorDetails (v : option ErrorDetails) (s : AppState)
  : AppState :=
  {| apiKey := apiKey s; isApiKeyModalOpen := isApiKeyModalOpen s;
     results := results s; isProcessing := isProcessing s;
     errorDetails := v; batchProgress := batchProgress s;
     toast := toast s; network := network s |}.

Definition setBatchProgress (f : BatchProgress -> BatchProgress)
  (s : AppState) : AppState :=
  {| apiKey := apiKey s; isApiKeyModalOpen := isApiKeyModalOpen s;
     results := results s; isProcessing := isProcessing s;
     errorDetails := errorDetails s; batchProgress := f (batchProgress s);
     toast := toast s; network := network s |}.

Definition showToast (m : jsstring) (t : ToastType) (s : AppState)
  : AppState :=
  {| apiKey := apiKey s; isApiKeyModalOpen := isApiKeyModalOpen s;
     results := results s; isProcessing := isProcessing s;
     errorDetails := errorDetails s; batchProgress := batchProgress s;
     toast := Some {| toast_msg := m; toast_type := t |};
     network := network s |}.

(** The remote model receives the requests of one service call. *)
Definition sendRequests (reqs : list Request) (s : AppState) : AppState :=
  {| apiKey := apiKey s; isApiKeyModalOpen := isApiKeyModalOpen s;
     results := results s; isProcessing := isProcessing s;
     errorDetails := errorDetails s; batchProgress := batchProgress s;
     toast := toast s; network := network s ++ reqs |}.

(** A run of the controller: the current state and the states it went
    through, most recent first. *)
Record Run := {
  cur : AppState;
  past : list AppState
}.

Definition start (s : AppState) : Run := {| cur := s; past := [] |}.

Definition step (f : AppState -> AppState) (r : Run) : Run :=
  {| cur := f (cur r); past := cur r :: past r |}.

(** Every state of a run, in chronological order. *)
Definition trace (r : Run) : list AppState := rev (cur r :: past r).

(** The decimal numeral of a count, as template literals print it. *)
Definition decimal (n : nat) : jsstring :=
  lit (NilEmpty.string_of_uint (Nat.to_uint n)).

Fixpoint mapi_from {A B : Type} (f : nat -> A -> B) (idx : nat) (l : list A)
  : list B :=
  match l with
  | [] => []
  | x :: rest => f idx x :: mapi_from f (S idx) rest
  end.

(** [l.map((x, idx) => f(idx, x))] *)
Definition mapi {A B : Type} (f : nat -> A -> B) (l : list A) : list B :=
  mapi_from f 0 l.

Definition CHUNK_SIZE : nat := 8.

(** How an iteration of a loop ends. *)
Inductive Control := Continue | Break.

(** The two locals of [processBatch] that the loop assigns. *)
Record LoopVars := {
  authErrorOccurred : bool;
  criticalError : option GeminiError
}.

Definition markProcessed (n : nat) (prev : BatchProgress) : BatchProgress :=
  {| total := total prev;
     processed := Nat.min (processed prev + n) (total prev);
     errors := errors prev;
     bp_isProcessing := bp_isProcessing prev |}.

Definition markErrors (n : nat) (prev : BatchProgress) : BatchProgress :=
  {| total := total prev;
     processed := processed prev;
     errors := errors prev + n;
     bp_isProcessing := bp_isProcessing prev |}.

Definition markIdle (prev : BatchProgress) : BatchProgress :=
  {| total := total prev;
     processed := processed prev;
     errors := errors prev;
     bp_isProcessing := false |}.

Definition authFailedDetails (e : GeminiError) : ErrorDetails :=
  {| title := lit "Authentication Failed";
     message := ge_message e;
     solution := ge_solution e;
     code := Some (codeName (ge_code e));
     status := ge_status e |}.

Definition authFallbackDetails : ErrorDetails :=
  {| title := lit "Auth Error";
     message := lit "Invalid API Key";
     solution := Some (lit "Check settings.");
     code := None;
     status := None |}.

Definition allFailedDetails : ErrorDetails :=
  {| title := lit "Processing Failed";
     message := lit "All items failed to process.";
     solution := Some (lit "Check your internet connection or API quota.");
     code := Some (lit "ALL_FAILED");
     status := None |}.

Section App.

Variable JSON_parse : jsstring -> option json.

(** The remote model: its reply to a request, given how many requests it
    has received before. *)
Variable remote : nat -> Request -> ApiReply.

(** [generateId()] and [Date.now()] at result [idx] of the chunk that
    starts at index [i]. *)
Variable generateId : nat -> nat -> jsstring.
Variable Date_now : nat -> nat -> N.

Definition newResults (i : nat) (chunk : list jsstring)
  (chunkResults : list NormalizedItem) : list AnalysisResult :=
  mapi (fun idx r =>
          {| id := generateId i idx;
             text := nth_error chunk idx;
             fields := r;
             timestamp := Date_now i idx |})
       chunkResults.

(** One iteration of the [for] loop of [processBatch] at index [i]: the
    body either falls through to the next iteration or breaks.  [key] is
    the credential captured by the callback. *)
Definition loopBody (texts : list jsstring) (key : jsstring) (i : nat)
  (vars : LoopVars) (run : Run) : Control * LoopVars * Run :=
  if authErrorOccurred vars then (Break, vars, run)
  else
    let chunk := slice texts i (i + CHUNK_SIZE) in
    let res :=
      analyzeSentimentBatch JSON_parse
        (remote (length (network (cur run)))) chunk key in
    let run := step (sendRequests (sr_requests res)) run in
    match sr_outcome res with
    | Resolved chunkResults =>
        let run :=
          step (setResults
                  (fun prev => newResults i chunk chunkResults ++ prev))
               run in
        let run :=
          step (setBatchProgress (markProcessed (length chunk))) run in
        (Continue, vars, run)
    | Rejected err =>
        if ErrorCode_eqb (ge_code err) AUTH_ERROR then
          let run := step (setApiKey []) run in
          let run := step (setIsApiKeyModalOpen true) run in
          (Break,
           {| authErrorOccurred := true; criticalError := Some err |},
           run)
        else
          let run :=
            step (setBatchProgress (markErrors (length chunk))) run in
          let run :=
            if negb (authErrorOccurred vars) then
              step (showToast
                      (lit "Batch " ++ decimal (i / CHUNK_SIZE + 1)
                         ++ lit " failed.") error) run
            else run in
          (Continue, vars, run)
    end.

(** The loop from index [i] on.  [None]: out of fuel. *)
Fixpoint chunkLoop (fuel : nat) (texts : list jsstring) (key : jsstring)
  (i : nat) (vars : LoopVars) (run : Run) : option (LoopVars * Run) :=
  if i <? length texts then
    match fuel with
    | O => None
    | S fuel' =>
        match loopBody texts key i vars run with
        | (Break, vars', run') => Some (vars', run')
        | (Continue, vars', run') =>
            chunkLoop fuel' texts key (i + CHUNK_SIZE) vars' run'
        end
    end
  else Some (vars, run).

(** The code after the loop.  [capturedErrors] is [batchProgress.errors] as
    the callback closed over it. *)
Definition postLoop (texts : list jsstring) (capturedErrors : nat)
  (vars : LoopVars) (run : Run) : Run :=
  match criticalError vars with
  | Some ce =>
      let run := step (setErrorDetails (Some (authFailedDetails ce))) run in
      step (showToast (lit "Authentication Failed") error) run
  | None =>
      if authErrorOccurred vars then
        step (setErrorDetails (Some authFallbackDetails)) run
      else
        let successCount :=
          (Z.of_nat (length texts) - Z.of_nat capturedErrors)%Z in
        if (successCount =? 0)%Z && (0 <? length texts) then
          step (setErrorDetails (Some allFailedDetails)) run
        else if (0 <? successCount)%Z then
          step (showToast (lit "Analysis Cycle Complete!") success) run
        else run
  end.

(** The [finally] block. *)
Definition finallyBlock (run : Run) : Run :=
  step (setBatchProgress markIdle) (step (setIsProcessing false) run).

(** The three updates before the loop. *)
Definition beginBatch (texts : list jsstring) (s : AppState) : Run :=
  let run := step (setIsProcessing true) (start s) in
  let run := step (setErrorDetails None) run in
  step (setBatchProgress
          (fun _ => {| total := length texts; processed := 0;
                       errors := 0; bp_isProcessing := true |}))
       run.

(** [processBatch(texts)] called in state [s].  Nothing inside its outer
    [try] throws: the service call is wrapped by the inner [try], so the
    outer [catch] is never entered and only [finally] follows. *)
Definition processBatch (texts : list jsstring) (s : AppState)
  : option Run :=
  match apiKey s with
  | [] => Some (step (setIsApiKeyModalOpen true) (start s))
  | _ :: _ =>
      match chunkLoop (length texts) texts (apiKey s) 0
              {| authErrorOccurred := false; criticalError := None |}
              (beginBatch texts s)
      with
      | None => None
      | Some (vars, run) =>
          Some (finallyBlock
                  (postLoop texts (errors (batchProgress s)) vars run))
      end
  end.

End App.

(** ** The App component: handleFileUpload *)

Record File := {
  file_name : jsstring;
  file_size : N;
  (** what [FileReader.readAsText] delivers; [None] when it reports an error *)
  file_content : option jsstring
}.

(** [content.split(/\r?\n/)] *)
Fixpoint splitLines (s : jsstring) : list jsstring :=
  match s with
  | [] => [[]]
  | c :: rest =>
      if (c =? LF)%N then [] :: splitLines rest
      else
        let keep :=
          match splitLines rest with
          | l :: ls => (c :: l) :: ls
          | [] => [[c]]
          end in
        if (c =? CR)%N then
          match rest with
          | d :: rest' => if (d =? LF)%N then [] :: splitLines rest' else keep
          | [] => keep
          end
        else keep
  end.

(** [line => line.trim().length > 0] *)
Definition nonBlank (line : jsstring) : bool := 0 <? length (trim line).

Definition MAX_FILE_SIZE : N := (2 * 1024 * 1024)%N.
Definition MAX_ROWS : nat := 100.

(** What one call of the handler did: the toasts it raised, whether the file
    was handed to the reader, and the texts passed to [processBatch]. *)
Record UploadResult := {
  up_toasts : list Toast;
  up_read : bool;
  up_submitted : option (list jsstring)
}.

Definition errorToast (m : jsstring) : Toast :=
  {| toast_msg := m; toast_type := error |}.

Section Upload.

(** [String.prototype.toLowerCase] *)
Variable toLowerCase : jsstring -> jsstring.

Definition looksLikeHeader (line : jsstring) : bool :=
  startsWith (lit "text") (toLowerCase line)
  || includes (lit "content") (toLowerCase line).

(** The lines kept for a file name, or [None] for an unsupported type. *)
Definition fileTexts (name content : jsstring) : option (list jsstring) :=
  if endsWith (lit ".csv") name then
    let texts := filter nonBlank (splitLines content) in
    match texts with
    | first :: rest => Some (if looksLikeHeader first then rest else texts)
    | [] => Some texts
    end
  else if endsWith (lit ".txt") name then
    Some (filter nonBlank (splitLines content))
  else None.

(** [reader.onload] *)
Definition onload (name content : jsstring) : UploadResult :=
  match fileTexts name content with
  | None =>
      {| up_toasts :=
           [errorToast (lit "Invalid file type. Please upload .csv or .txt")];
         up_read := true; up_submitted := None |}
  | Some texts =>
      let tooMany := MAX_ROWS <? length texts in
      let toasts :=
        if tooMany then
          [errorToast (lit "Too many rows (" ++ decimal (length texts)
                         ++ lit "). Limit is 100 for this demo.")]
        else [] in
      let texts := if tooMany then slice texts 0 MAX_ROWS else texts in
      if 0 <? length texts then
        {| up_toasts := toasts; up_read := true;
           up_submitted := Some texts |}
      else
        {| up_toasts := toasts ++ [errorToast (lit "File appears to be empty.")];
           up_read := true; up_submitted := None |}
  end.

Definition handleFileUpload (file : option File) : UploadResult :=
  match file with
  | None => {| up_toasts := []; up_read := false; up_submitted := None |}
  | Some f =>
      if (MAX_FILE_SIZE <? file_size f)%N then
        {| up_toasts :=
             [errorToast (lit "File is too large. Max size is 2MB.")];
           up_read := false; up_submitted := None |}
      else
        match file_content f with
        | None =>
            {| up_toasts := [errorToast (lit "Error reading file.")];
               up_read := true; up_submitted := None |}
        | Some content => onload (file_name f) content
        end
  end.

End Upload.

(** ** The App component: downloadCSV *)

(** [s.replace(/\x22/g, ...)] with two quotation marks as the replacement:
    every quotation mark of [s] is doubled. *)
Fixpoint escapeQuotes (s : jsstring) : jsstring :=
  match s with
  | [] => []
  | c :: rest =>
      if (c =? DQUOTE)%N then DQUOTE :: DQUOTE :: escapeQuotes rest
      else c :: escapeQuotes rest
  end.

Definition quoted (s : jsstring) : jsstring := DQUOTE :: s ++ [DQUOTE].

Definition CSV_HEADERS : list jsstring :=
  [lit "ID"; lit "Text"; lit "Sentiment"; lit "Emotion"; lit "Is Sarcastic";
   lit "Confidence"; lit "Keywords"; lit "Explanation"].

Definition CSV_PREFIX : jsstring := lit "data:text/csv;charset=utf-8,".

(** The [TypeError] of calling [replace] on a value that has no such method. *)
Definition notCallableError (what : jsstring) : JsError :=
  typeError (what ++ lit ".replace is not a function").

Section CsvExport.

(** [Number.prototype.toString] *)
Variable Number_toString : number -> jsstring.

(** The [TypeError] of ToPrimitive on an object without a usable
    [toString] or [valueOf]. *)
Definition NOT_PRIMITIVE : JsError :=
  typeError (lit "Cannot convert object to primitive value").

(** ToString on a parsed value.  An array prints its elements joined by
    commas; an object prints through [Object.prototype.toString] unless an
    own property shadows it, and no own property of a parsed object is
    callable. *)
Fixpoint toString (v : json) : Completion jsstring :=
  match v with
  | JNull => Normal (lit "null")
  | JBool true => Normal (lit "true")
  | JBool false => Normal (lit "false")
  | JNumber n => Normal (Number_toString n)
  | JString s => Normal s
  | JArray items =>
      parts <-
        mapM (fun x => match x with JNull => Normal [] | _ => toString x end)
             items ;;
      Normal (join (lit ",") parts)
  | JObject props =>
      match lookupProp (lit "toString") props with
      | Some _ => Throw (ThrowError NOT_PRIMITIVE)
      | None => Normal (lit "[object Object]")
      end
  end.

(** The conversion [Array.prototype.join] applies to an element: [null]
    prints as the empty string. *)
Definition joinElement (v : json) : Completion jsstring :=
  match v with
  | JNull => Normal []
  | _ => toString v
  end.

(** [cells.join(sep)] on an array of values. *)
Definition joinValues (sep : jsstring) (cells : list json)
  : Completion jsstring :=
  parts <- mapM joinElement cells ;;
  Normal (join sep parts).

(** One element of [rows]: the eight cells of a result, in the order of
    evaluation of the array literal. *)
Definition csvRow (r : AnalysisResult) : Completion (list json) :=
  textCell <-
    match text r with
    | Some t => Normal (quoted (escapeQuotes t))
    | None => Throw (ThrowError (undefinedReadError (lit "replace")))
    end ;;
  keywordsCell <- joinValues (lit "; ") (n_keywords (fields r)) ;;
  explanationCell <-
    match n_explanation (fields r) with
    | JString e => Normal (quoted (escapeQuotes e))
    | JNull => Throw (ThrowError (nullReadError (lit "replace")))
    | _ => Throw (ThrowError (notCallableError (lit "r.explanation")))
    end ;;
  Normal
    [JString (id r);
     JString textCell;
     n_sentiment (fields r);
     n_emotion (fields r);
     JString (if n_isSarcastic (fields r) then lit "Yes" else lit "No");
     JNumber (n_confidence (fields r));
     JString (quoted keywordsCell);
     JString explanationCell].

(** [csvContent]: the document handed to the download link. *)
Definition downloadCSV (results : list AnalysisResult)
  : Completion jsstring :=
  rows <- mapM csvRow results ;;
  lines <- mapM (joinValues (lit ",")) rows ;;
  Normal (CSV_PREFIX ++ join [LF] (join (lit ",") CSV_HEADERS :: lines)).

End CsvExport.

(** ** Vocabulary of the statements *)

(** The field [k] of an array element, [None] when it has none. *)
Definition fieldOf (item : json) (k : jsstring) : option json :=
  match item with
  | JObject props => lookupProp k props
  | _ => None
  end.


(** The triggers of the classifier, as the [if] chain of the [catch] block
    tests them. *)
Definition authTrigger (e : JsError) : bool :=
  includes (lit "401") (err_message e) || includes (lit "403") (err_message e)
  || includes (lit "API key") (err_message e)
  || statusIs (errorStatus e) 401 || statusIs (errorStatus e) 403.

Definition rateTrigger (e : JsError) : bool :=
  includes (lit "429") (err_message e) || includes (lit "Quota") (err_message e)
  || statusIs (errorStatus e) 429.

Definition serverTrigger (e : JsError) : bool :=
  includes (lit "503") (err_message e)
  || includes (lit "Overloaded") (err_message e)
  || statusIs (errorStatus e) 503.

Definition badRequestTrigger (e : JsError) : bool :=
  statusIs (errorStatus e) 400 || includes (lit "400") (err_message e).

Definition notFoundTrigger (e : JsError) : bool :=
  statusIs (errorStatus e) 404 || includes (lit "404") (err_message e).

(** The code and the suggestion of every [throw new GeminiError] of the
    service, one entry per throw site. *)
Definition SUGGESTIONS : list (ErrorCode * option jsstring) :=
  map (fun e => (ge_code e, ge_solution e))
    [missingKeyError; safetyBlockError; emptyResponseError;
     malformedJsonError; invalidStructureError; invalidKeyError None;
     rateLimitError; unavailableError; invalidRequestError;
     modelNotFoundError; unknownError None].

(** The [j]-th group of the batch, the number of groups, and the first [m]
    groups in order. *)
Definition chunkAt (texts : list jsstring) (j : nat) : list jsstring :=
  slice texts (j * CHUNK_SIZE) (j * CHUNK_SIZE + CHUNK_SIZE).

Definition chunkCount (texts : list jsstring) : nat :=
  (length texts + (CHUNK_SIZE - 1)) / CHUNK_SIZE.

Definition chunksUpTo (texts : list jsstring) (m : nat)
  : list (list jsstring) :=
  map (chunkAt texts) (seq 0 m).

(** The requests of the first [m] groups: one request per group. *)
Definition requestsUpTo (key : jsstring) (texts : list jsstring) (m : nat)
  : list Request :=
  map (fun c => {| req_apiKey := key; req_texts := c |}) (chunksUpTo texts m).

Definition isAuthRejection (o : Outcome) : bool :=
  match o with
  | Rejected e => ErrorCode_eqb (ge_code e) AUTH_ERROR
  | Resolved _ => false
  end.

(** The outcome of the service call for group [j] of a batch that starts
    when the remote model has received [n0] requests. *)
Definition outcomeOf (JSON_parse : jsstring -> option json)
  (remote : nat -> Request -> ApiReply) (n0 : nat) (key : jsstring)
  (texts : list jsstring) (j : nat) : Outcome :=
  sr_outcome
    (analyzeSentimentBatch JSON_parse (remote (n0 + j)) (chunkAt texts j) key).

(** The bounds that the counters keep, and the stated invariant. *)
Definition progressBounded (s : AppState) : Prop :=
  processed (batchProgress s) + errors (batchProgress s)
  <= total (batchProgress s).

Definition progressInvariant (s : AppState) : Prop :=
  processed (batchProgress s) <= total (batchProgress s)
  /\ errors (batchProgress s) <= processed (batchProgress s).

(** The loop invariant of [processBatch] before the iteration at index [i],
    for a batch that starts with the requests [net0] already sent and the
    states [base] already visited.  [added] are the states between the reset
    of the counters and the current one, most recent first. *)
Section LoopInvariant.

Variable JSON_parse : jsstring -> option json.
Variable remote : nat -> Request -> ApiReply.
Variable texts : list jsstring.
Variable key : jsstring.
Variable net0 : list Request.
Variable base : list AppState.

Definition idleVars : LoopVars :=
{| authErrorOccurred := false; criticalError := None |}.

Definition noAuthBefore (m : nat) : Prop :=
forall j, j < m ->
  isAuthRejection (outcomeOf JSON_parse remote (length net0) key texts j)
  = false.

Definition LoopInv (i : nat) (vars : LoopVars) (run : Run) : Prop :=
vars = idleVars
/\ exists m added,
    i = m * CHUNK_SIZE
    /\ m <= chunkCount texts
    /\ network (cur run) = net0 ++ requestsUpTo key texts m
    /\ noAuthBefore m
    /\ past run = added ++ base
    /\ Forall progressBounded (cur run :: added)
    /\ total (batchProgress (cur run)) = length texts
    /\ processed (batchProgress (cur run))
       + errors (batchProgress (cur run)) <= i.

(** The run after the iteration that breaks on the authentication error
  [e] of group [k], started from the run [before]. *)
Definition haltedRun (k : nat) (before : Run) : Run :=
step (setIsApiKeyModalOpen true)
  (step (setApiKey [])
     (step (sendRequests
              [{| req_apiKey := key; req_texts := chunkAt texts k |}])
           before)).

Definition LoopPost (vars : LoopVars) (run : Run) : Prop :=
exists m added,
  network (cur run) = net0 ++ requestsUpTo key texts m
  /\ past run = added ++ base
  /\ Forall progressBounded (cur run :: added)
  /\ ((vars = idleVars /\ m = chunkCount texts /\ noAuthBefore m)
      \/ (exists k e before,
            m = S k /\ k < chunkCount texts /\ noAuthBefore k
            /\ outcomeOf JSON_parse remote (length net0) key texts k
               = Rejected e
            /\ ge_code e = AUTH_ERROR
            /\ vars = {| authErrorOccurred := true;
                         criticalError := Some e |}
            /\ network (cur before) = net0 ++ requestsUpTo key texts k
            /\ run = haltedRun k before)).

End LoopInvariant.

(** What is submitted for the rows kept from a file: nothing when there is
    none, else the first [MAX_ROWS] of them. *)
Definition capped (rows : list jsstring) : option (list jsstring) :=
  match rows with
  | [] => None
  | _ :: _ => Some (firstn MAX_ROWS rows)
  end.

(** The reading of a quoted CSV field: a doubled quotation mark stands for
    one mark, a single one is malformed. *)
Fixpoint unescapeQuotes (s : jsstring) : option jsstring :=
  match s with
  | [] => Some []
  | c :: rest =>
      if (c =? DQUOTE)%N then
        match rest with
        | d :: rest' =>
            if (d =? DQUOTE)%N
            then option_map (cons DQUOTE) (unescapeQuotes rest')
            else None
        | [] => None
        end
      else option_map (cons c) (unescapeQuotes rest)
  end.

Definition countQuotes (s : jsstring) : nat :=
  length (filter (fun c => (c =? DQUOTE)%N) s).

Definition isString (v : json) : Prop := exists s, v = JString s.


(** The strings held by an array of strings. *)
Definition stringsOf (vs : list json) : list jsstring :=
  map (fun v => match v with JString s => s | _ => [] end) vs.

(** Number of leading backticks. *)
Fixpoint leadingTicks (s : jsstring) : nat :=
  match s with
  | [] => 0
  | c :: rest => if (c =? BACKTICK)%N then S (leadingTicks rest) else 0
  end.


(** ** Sample inputs *)

Module Samples.

(** A table standing for [JSON.parse] on the sample texts. *)
Definition objectText : jsstring :=
  lit "{" ++ [DQUOTE] ++ lit "a" ++ [DQUOTE] ++ lit ":1}".

Definition parse (s : jsstring) : option json :=
  if jsstring_eqb s (lit "[1]") then Some (JArray [JNumber (Finite 1%Q)])
  else if jsstring_eqb s (lit "[null]") then Some (JArray [JNull])
  else if jsstring_eqb s objectText
  then Some (JObject [(lit "a", JNumber (Finite 1%Q))])
  else None.

Definition key : jsstring := lit "AIzaSample".

Definition respond (t : jsstring) : ApiReply :=
  ApiReturns {| candidates := Some [JObject []]; response_text := Some t |}.

Definition fail (m : jsstring) (st : option N) : ApiReply :=
  ApiThrows {| err_message := m; err_status := st;
               err_response_status := None |}.

Definition mixedItem : json :=
  JObject [(lit "sentiment", JString (lit "Mixed"))].

Definition idle : AppState :=
  {| apiKey := key; isApiKeyModalOpen := false; results := [];
     isProcessing := false; errorDetails := None;
     batchProgress := {| total := 0; processed := 0; errors := 0;
                         bp_isProcessing := false |};
     toast := None; network := [] |}.

Definition texts (n : nat) : list jsstring := repeat (lit "fine") n.

(** Lower case for the letters A to Z, other code units unchanged. *)
Definition lower (s : jsstring) : jsstring :=
  map (fun c => if ((65 <=? c) && (c <=? 90))%N then (c + 32)%N else c) s.

Definition numberText (n : number) : jsstring :=
  match n with
  | Finite q => if Qeq_bool q (1 # 2)%Q then lit "0.5" else lit "1"
  | Infinite false => lit "Infinity"
  | Infinite true => lit "-Infinity"
  | NaN => lit "NaN"
  end.

Definition quip : jsstring :=
  lit "say " ++ [DQUOTE] ++ lit "hi" ++ [DQUOTE].

Definition result : AnalysisResult :=
  {| id := lit "a1b2c3d";
     text := Some quip;
     fields :=
       {| n_sentiment := JString (lit "Positive");
          n_emotion := JString (lit "Joy");
          n_emotionEmoji := JString DEFAULT_EMOJI;
          n_isSarcastic := false;
          n_confidence := HALF;
          n_keywords := [JString (lit "hi")];
          n_explanation := JString quip |};
     timestamp := 0%N |}.

Definition csvFile : File :=
  {| file_name := lit "reviews.csv";
     file_size := 64%N;
     file_content :=
       Some (lit "Text,label" ++ [CR; LF] ++ lit "good" ++ [LF; LF]
               ++ lit "  " ++ [LF] ++ lit "bad") |}.

Definition ids (i idx : nat) : jsstring := decimal (i + idx).
Definition clock (i idx : nat) : N := N.of_nat (i + idx).

End Samples.

(** ** The App component: derived state and the other handlers *)

(** The value of the [filter] state. *)
Inductive FilterType := ALL | Only (t : SentimentType).

(** [r.sentiment === t] for a value [t] of the enum: strict equality holds
    for the string of that value only. *)
Definition hasSentiment (t : SentimentType) (r : AnalysisResult) : bool :=
  match n_sentiment (fields r) with
  | JString s => jsstring_eqb s (sentimentValue t)
  | _ => false
  end.

Definition filteredResults (f : FilterType) (results : list AnalysisResult)
  : list AnalysisResult :=
  match f with
  | ALL => results
  | Only t => filter (hasSentiment t) results
  end.

Definition totalAnalyzed (results : list AnalysisResult) : nat :=
  length results.

(** The [onDelete] callback handed to the results table. *)
Definition onDelete (target : jsstring) (s : AppState) : AppState :=
  setResults (filter (fun r => negb (jsstring_eqb (id r) target))) s.

(** The [onSave] callback handed to the key dialog. *)
Definition onSave (key : jsstring) (run : Run) : Run :=
  let run := step (setApiKey key) run in
  let run := step (setIsApiKeyModalOpen false) run in
  let run := step (showToast (lit "API Key saved") success) run in
  step (setErrorDetails None) run.

(** The [onClose] callback handed to the key dialog. *)
Definition onClose (run : Run) : Run :=
  step (setIsApiKeyModalOpen false) run.

(** ** The key dialog *)

(** [isValidFormat] once the effect on [key] has run. *)
Definition isValidFormat (key : jsstring) : bool :=
  negb ((0 <? length key) && negb (startsWith (lit "AIza") key)).

(** The [disabled] attribute of the Save button. *)
Definition saveDisabled (key : jsstring) : bool :=
  jsstring_eqb (trim key) [] || negb (isValidFormat key).

(** The click handler of the Save button. *)
Definition saveClick (key : jsstring) (run : Run) : Run :=
  match trim key with
  | [] => run
  | _ :: _ => onClose (onSave (trim key) run)
  end.

(** A click on the Save button: a disabled button fires no handler. *)
Definition pressSave (key : jsstring) (run : Run) : Run :=
  if saveDisabled key then run else saveClick key run.

(** ** The App component: handlers that start a batch *)

Section Starters.

Variable JSON_parse : jsstring -> option json.
Variable remote : nat -> Request -> ApiReply.
Variable generateId : nat -> nat -> jsstring.
Variable Date_now : nat -> nat -> N.
Variable toLowerCase : jsstring -> jsstring.

(** [handleSingleAnalyze] with the text box holding [textInput]: the run of
    the batch it starts, and the new content of the text box. *)
Definition handleSingleAnalyze (textInput : jsstring) (s : AppState)
  : option Run * jsstring :=
  match trim textInput with
  | [] => (Some (start s), textInput)
  | _ :: _ =>
      (processBatch JSON_parse remote generateId Date_now [trim textInput] s,
       [])
  end.

(** The toasts of a file import, raised in order. *)
Definition raiseToasts (toasts : list Toast) (s : AppState) : AppState :=
  fold_left (fun st t => showToast (toast_msg t) (toast_type t) st) toasts s.

(** A file import followed by the batch that its [onload] starts. *)
Definition importFile (file : option File) (s : AppState) : option Run :=
  let up := handleFileUpload toLowerCase file in
  let s' := raiseToasts (up_toasts up) s in
  match up_submitted up with
  | Some texts => processBatch JSON_parse remote generateId Date_now texts s'
  | None => Some (start s')
  end.

End Starters.

(** ** Charts: SentimentDistributionChart *)

Record SentimentCounts := {
  positives : nat;
  neutrals : nat;
  negatives : nat
}.

Record PieSlice := {
  slice_name : jsstring;
  slice_value : nat;
  slice_color : jsstring
}.

Definition sentimentColor (t : SentimentType) : jsstring :=
  match t with
  | POSITIVE => lit "#16a34a"
  | NEUTRAL => lit "#525252"
  | NEGATIVE => lit "#dc2626"
  end.

(** [acc[key]++] on the accumulator of the three counts: an increment under
    any other key writes a property that is never read. *)
Definition bumpCount (key : jsstring) (acc : SentimentCounts)
  : SentimentCounts :=
  if jsstring_eqb key (sentimentValue POSITIVE) then
    {| positives := S (positives acc); neutrals := neutrals acc;
       negatives := negatives acc |}
  else if jsstring_eqb key (sentimentValue NEUTRAL) then
    {| positives := positives acc; neutrals := S (neutrals acc);
       negatives := negatives acc |}
  else if jsstring_eqb key (sentimentValue NEGATIVE) then
    {| positives := positives acc; neutrals := neutrals acc;
       negatives := S (negatives acc) |}
  else acc.

Section Charts.

Variable Number_toString : number -> jsstring.

(** The [reduce] of the chart, from the accumulator [acc]: the property key
    of a result is its sentiment converted to a string. *)
Fixpoint countSentiments (results : list AnalysisResult)
  (acc : SentimentCounts) : Completion SentimentCounts :=
  match results with
  | [] => Normal acc
  | r :: rest =>
      key <- toString Number_toString (n_sentiment (fields r)) ;;
      countSentiments rest (bumpCount key acc)
  end.

(** The [data] of the pie: the slices with a positive value. *)
Definition pieData (results : list AnalysisResult)
  : Completion (list PieSlice) :=
  counts <-
    countSentiments results
      {| positives := 0; neutrals := 0; negatives := 0 |} ;;
  Normal
    (filter (fun d => 0 <? slice_value d)
       [{| slice_name := lit "Positive"; slice_value := positives counts;
           slice_color := sentimentColor POSITIVE |};
        {| slice_name := lit "Neutral"; slice_value := neutrals counts;
           slice_color := sentimentColor NEUTRAL |};
        {| slice_name := lit "Negative"; slice_value := negatives counts;
           slice_color := sentimentColor NEGATIVE |}]).

End Charts.

(** ** KeywordHighlighter: the pattern of the keywords *)

(** The characters of the class of the escaping regular expression:
    . * + ? ^ $ { } ( ) | [ ] and the backslash. *)
Definition isRegExpSpecial (c : char) : bool :=
  existsb (N.eqb c) [46; 42; 43; 63; 94; 36; 123; 125; 40; 41; 124; 91; 93; 92]%N.

Definition BACKSLASH : char := 92%N.

(** The replacement of every special character by a backslash and that
    character. *)
Fixpoint escapeRegExp (k : jsstring) : jsstring :=
  match k with
  | [] => []
  | c :: rest =>
      if isRegExpSpecial c then BACKSLASH :: c :: escapeRegExp rest
      else c :: escapeRegExp rest
  end.

(** Insertion of [k] into a list ordered by non-increasing length: after the
    strictly longer elements, before the others. *)
Fixpoint insertByLength (k : jsstring) (sorted : list jsstring)
  : list jsstring :=
  match sorted with
  | [] => [k]
  | x :: rest =>
      if length k <? length x then x :: insertByLength k rest
      else k :: sorted
  end.

(** [[...keywords].sort((a, b) => b.length - a.length)]: the sort is stable,
    so its result is that of a stable insertion sort, built here from the
    last keyword to the first. *)
Definition sortedKeywords (keywords : list jsstring) : list jsstring :=
  fold_right insertByLength [] keywords.

(** ** More vocabulary *)

(** The normalised record seen as the object it is. *)
Definition itemObject (r : NormalizedItem) : json :=
  JObject
    [(lit "sentiment", n_sentiment r);
     (lit "emotion", n_emotion r);
     (lit "emotionEmoji", n_emotionEmoji r);
     (lit "isSarcastic", JBool (n_isSarcastic r));
     (lit "confidence", JNumber (n_confidence r));
     (lit "keywords", JArray (n_keywords r));
     (lit "explanation", n_explanation r)].

(** The sum of [f 0], ..., [f (m - 1)]. *)
Fixpoint tally (f : nat -> nat) (m : nat) : nat :=
  match m with
  | O => 0
  | S k => tally f k + f k
  end.

Section BatchAccounts.

Variable JSON_parse : jsstring -> option json.
Variable remote : nat -> Request -> ApiReply.
Variable generateId : nat -> nat -> jsstring.
Variable Date_now : nat -> nat -> N.
Variable texts : list jsstring.
Variable key : jsstring.
Variable n0 : nat.

(** What group [j] adds to the processed counter, to the error counter and
    to the results. *)
Definition processedAt (j : nat) : nat :=
  match outcomeOf JSON_parse remote n0 key texts j with
  | Resolved _ => length (chunkAt texts j)
  | Rejected _ => 0
  end.

Definition failedAt (j : nat) : nat :=
  match outcomeOf JSON_parse remote n0 key texts j with
  | Resolved _ => 0
  | Rejected e =>
      if ErrorCode_eqb (ge_code e) AUTH_ERROR then 0
      else length (chunkAt texts j)
  end.

Definition resultsAt (j : nat) : list AnalysisResult :=
  match outcomeOf JSON_parse remote n0 key texts j with
  | Resolved rs =>
      newResults generateId Date_now (j * CHUNK_SIZE) (chunkAt texts j) rs
  | Rejected _ => []
  end.

(** The results of the first [m] groups, newest group first. *)
Fixpoint collected (m : nat) : list AnalysisResult :=
  match m with
  | O => []
  | S k => resultsAt k ++ collected k
  end.

(** The accounts of a batch after [m] groups, in state [st]; [results0] are
    the results before the batch. *)
Definition Accounts (results0 : list AnalysisResult) (m : nat)
  (st : AppState) : Prop :=
  m <= chunkCount texts
  /\ length (network st) = n0 + m
  /\ total (batchProgress st) = length texts
  /\ processed (batchProgress st) = tally processedAt m
  /\ errors (batchProgress st) = tally failedAt m
  /\ results st = collected m ++ results0
  /\ errorDetails st = None.

Definition AccountsInv (results0 : list AnalysisResult) (i : nat)
  (vars : LoopVars) (run : Run) : Prop :=
  vars = idleVars
  /\ apiKey (cur run) = key
  /\ exists m, i = m * CHUNK_SIZE /\ Accounts results0 m (cur run).

Definition AccountsPost (results0 : list AnalysisResult)
  (vars : LoopVars) (run : Run) : Prop :=
  exists m,
    Accounts results0 m (cur run)
    /\ ((vars = idleVars /\ apiKey (cur run) = key
         /\ chunkCount texts <= m)
        \/ (exists k e,
              m = S k
              /\ outcomeOf JSON_parse remote n0 key texts k = Rejected e
              /\ ge_code e = AUTH_ERROR
              /\ vars = {| authErrorOccurred := true;
                           criticalError := Some e |}
              /\ apiKey (cur run) = [])).

End BatchAccounts.

(** A result comes from the text of its group at the same index, or has no
    text when the group is shorter. *)
Definition textFrom (texts : list jsstring) (r : AnalysisResult) : Prop :=
  text r = None \/ exists t, text r = Some t /\ In t texts.

(** A sentiment that is one of the three values of the enum. *)
Definition knownSentiment (r : AnalysisResult) : Prop :=
  exists t, n_sentiment (fields r) = JString (sentimentValue t).

(** The slice of the pie for a sentiment counted [n] times. *)
Definition sliceOf (t : SentimentType) (n : nat) : PieSlice :=
  {| slice_name := sentimentValue t; slice_value := n;
     slice_color := sentimentColor t |}.

(** The reading of an escaped keyword: a backslash stands for the character
    after it. *)
Fixpoint unescapeRegExp (k : jsstring) : jsstring :=
  match k with
  | [] => []
  | c :: rest =>
      if (c =? BACKSLASH)%N then
        match rest with
        | d :: rest' => d :: unescapeRegExp rest'
        | [] => [c]
        end
      else c :: unescapeRegExp rest
  end.

(** The number of views, among the three, that show a result. *)
Definition viewsOf (r : AnalysisResult) : nat :=
  (if hasSentiment POSITIVE r then 1 else 0)
  + (if hasSentiment NEGATIVE r then 1 else 0)
  + (if hasSentiment NEUTRAL r then 1 else 0).

(** The order of the sorted keywords: no element is longer than one before
    it. *)
Definition byLength (a b : jsstring) : Prop := length b <= length a.

Module MoreSamples.

(** A JSON text with a fence inside a string value. *)
Definition fencedValue : jsstring :=
  lit "[" ++ [DQUOTE] ++ lit "use ```code```" ++ [DQUOTE] ++ lit "]".

Definition plainArray : jsstring :=
  lit "[{" ++ [DQUOTE] ++ lit "sentiment" ++ [DQUOTE] ++ lit ":"
    ++ [DQUOTE] ++ lit "Positive" ++ [DQUOTE] ++ lit "}]".

Definition positiveItem : json :=
  JObject [(lit "sentiment", JString (lit "Positive"))].

Definition parse (s : jsstring) : option json :=
  if jsstring_eqb s plainArray then Some (JArray [positiveItem])
  else Samples.parse s.

Definition withSentiment (v : json) (i : jsstring) : AnalysisResult :=
  {| id := i;
     text := Some (lit "fine");
     fields :=
       {| n_sentiment := v;
          n_emotion := JString (lit "Joy");
          n_emotionEmoji := JString DEFAULT_EMOJI;
          n_isSarcastic := false;
          n_confidence := HALF;
          n_keywords := [];
          n_explanation := JString (lit "ok") |};
     timestamp := 0%N |}.

Definition mixedResults : list AnalysisResult :=
  [withSentiment (JString (lit "Positive")) (lit "a");
   withSentiment (JString (lit "Mixed")) (lit "b");
   withSentiment (JString (lit "Negative")) (lit "a")].

Definition quota : ApiReply :=
  Samples.fail (lit "Quota exceeded") (Some 429%N).




End MoreSamples.

(* ===================================================================== *)
(** * Part II: properties                                                 *)
(* ===================================================================== *)

Unset Implicit Arguments.

(** ** Strings *)

Lemma jsstring_eqb_eq (a b : jsstring) : jsstring_eqb a b = true <-> a = b.
Proof.
  revert b; induction a as [|x a IH]; intros [|y b]; simpl; split;
    try congruence; try reflexivity.
  - intros H. apply andb_true_iff in H as [Hx Hr].
    apply N.eqb_eq in Hx. apply IH in Hr. congruence.
  - intros H. injection H as -> ->.
    rewrite N.eqb_refl. simpl. apply IH. reflexivity.
Qed.

Lemma jsstring_eqb_refl (a : jsstring) : jsstring_eqb a a = true.
Proof. apply jsstring_eqb_eq. reflexivity. Qed.

Lemma startsWith_app (p s : jsstring) : startsWith p (p ++ s) = true.
Proof.
  induction p as [|a p IH]; simpl; [reflexivity|].
  rewrite N.eqb_refl. exact IH.
Qed.

Lemma startsWith_length (p s : jsstring) :
  startsWith p s = true -> length p <= length s.
Proof.
  revert s; induction p as [|a p IH]; intros [|b s]; simpl; intros H;
    try lia; try discriminate.
  apply andb_true_iff in H as [_ H]. apply IH in H. lia.
Qed.

(** A pattern without line feed matches at the head of [s ++ LF :: t] exactly
    when it matches at the head of [s]. *)
Lemma startsWith_before_LF (p s t : jsstring) :
  ~ In LF p -> p <> [] ->
  startsWith p (s ++ LF :: t) = startsWith p s.
Proof.
  revert s; induction p as [|a p IH]; intros s Hin Hne; [congruence|].
  destruct s as [|b s]; simpl.
  - destruct (N.eqb_spec a LF) as [->|_]; [|reflexivity].
    exfalso. apply Hin. left. reflexivity.
  - destruct p as [|a' p'].
    + reflexivity.
    + rewrite IH; [reflexivity| |discriminate].
      intros H. apply Hin. right. exact H.
Qed.

(** A pattern ending in a line feed additionally matches when [s] is the
    pattern without that line feed. *)
Lemma startsWith_LF_before_LF (q s t : jsstring) :
  ~ In LF q ->
  startsWith (q ++ [LF]) (s ++ LF :: t)
  = startsWith (q ++ [LF]) s || jsstring_eqb s q.
Proof.
  revert s; induction q as [|a q IH]; intros s Hin.
  - destruct s as [|b s]; simpl; [reflexivity|].
    rewrite orb_false_r. reflexivity.
  - destruct s as [|b s]; simpl.
    + destruct (N.eqb_spec a LF) as [->|_]; [|reflexivity].
      exfalso. apply Hin. left. reflexivity.
    + rewrite IH by (intros H; apply Hin; right; exact H).
      rewrite (N.eqb_sym b a).
      destruct (a =? b)%N; reflexivity.
Qed.

Lemma trimStart_snoc_LF (x : jsstring) :
  trimStart (x ++ [LF]) = trimStart x ++ [LF]
  \/ (trimStart (x ++ [LF]) = [] /\ trimStart x = []).
Proof.
  induction x as [|c x IH]; simpl.
  - right. split; reflexivity.
  - destruct (isWhiteSpace c); [exact IH|]. left. reflexivity.
Qed.

Lemma trimEnd_snoc_LF (y : jsstring) : trimEnd (y ++ [LF]) = trimEnd y.
Proof. unfold trimEnd. rewrite rev_app_distr. reflexivity. Qed.

Lemma trim_snoc_LF (x : jsstring) : trim (x ++ [LF]) = trim x.
Proof.
  unfold trim. destruct (trimStart_snoc_LF x) as [H|[H1 H2]].
  - rewrite H. apply trimEnd_snoc_LF.
  - rewrite H1, H2. reflexivity.
Qed.

Lemma indexOf_from_first (c : char) (pre rest : jsstring) (i : Z) :
  ~ In c pre ->
  indexOf_from c (pre ++ c :: rest) i = (i + Z.of_nat (length pre))%Z.
Proof.
  revert i; induction pre as [|x pre IH]; intros i Hin; simpl.
  - rewrite N.eqb_refl. lia.
  - destruct (N.eqb_spec x c) as [->|_].
    + exfalso. apply Hin. left. reflexivity.
    + rewrite IH by (intros H; apply Hin; right; exact H). lia.
Qed.

Lemma lastIndexOf_from_absent (c : char) (s : jsstring) (i found : Z) :
  ~ In c s -> lastIndexOf_from c s i found = found.
Proof.
  revert i found; induction s as [|x s IH]; intros i found Hin; simpl.
  - reflexivity.
  - destruct (N.eqb_spec x c) as [->|_].
    + exfalso. apply Hin. left. reflexivity.
    + apply IH. intros H. apply Hin. right. exact H.
Qed.

Lemma lastIndexOf_from_last (c : char) (l post : jsstring) (i found : Z) :
  ~ In c post ->
  lastIndexOf_from c (l ++ c :: post) i found = (i + Z.of_nat (length l))%Z.
Proof.
  revert i found; induction l as [|x l IH]; intros i found Hin; simpl.
  - rewrite N.eqb_refl. rewrite lastIndexOf_from_absent by exact Hin. lia.
  - rewrite IH by exact Hin. lia.
Qed.

Lemma substring_in_range (s : jsstring) (a b : nat) :
  a <= b -> b <= length s ->
  substring s (Z.of_nat a) (Z.of_nat b) = firstn (b - a) (skipn a s).
Proof.
  intros Hab Hb. unfold substring, clampIndex.
  replace (Z.max 0 (Z.min (Z.of_nat a) (Z.of_nat (length s))))
    with (Z.of_nat a) by lia.
  replace (Z.max 0 (Z.min (Z.of_nat b) (Z.of_nat (length s))))
    with (Z.of_nat b) by lia.
  replace (Z.min (Z.of_nat a) (Z.of_nat b)) with (Z.of_nat a) by lia.
  replace (Z.max (Z.of_nat a) (Z.of_nat b)) with (Z.of_nat b) by lia.
  rewrite Nat2Z.id.
  replace (Z.to_nat (Z.of_nat b - Z.of_nat a)) with (b - a) by lia.
  reflexivity.
Qed.

(** ** cleanJsonString *)

Lemma FENCE_JSON_no_LF : ~ In LF FENCE_JSON.
Proof. vm_compute. intuition discriminate. Qed.

Lemma FENCE_no_LF : ~ In LF FENCE.
Proof. vm_compute. intuition discriminate. Qed.

Lemma fenceMatchLength_before_suffix (s : jsstring) :
  jsstring_eqb s FENCE_JSON = false ->
  fenceMatchLength (s ++ LF :: FENCE) = fenceMatchLength s.
Proof.
  intros Hne. unfold fenceMatchLength, FENCE_JSON_LF.
  rewrite (startsWith_LF_before_LF _ _ _ FENCE_JSON_no_LF), Hne, orb_false_r.
  rewrite (startsWith_before_LF _ _ _ FENCE_JSON_no_LF) by discriminate.
  rewrite (startsWith_before_LF _ _ _ FENCE_no_LF) by discriminate.
  reflexivity.
Qed.

Lemma fenceMatchLength_le (s : jsstring) :
  fenceMatchLength s <= length s.
Proof.
  unfold fenceMatchLength.
  destruct (startsWith FENCE_JSON_LF s) eqn:H1.
  { apply startsWith_length in H1. exact H1. }
  destruct (startsWith FENCE_JSON s) eqn:H2.
  { apply startsWith_length in H2. exact H2. }
  destruct (startsWith FENCE s) eqn:H3.
  { apply startsWith_length in H3. exact H3. }
  lia.
Qed.

(** Appending the closing fence line to the input appends at most one line
    feed to the output of the fence-stripping pass. *)
Lemma stripFences_from_suffix (s : jsstring) (k : nat) :
  k <= length s ->
  stripFences_from k (s ++ LF :: FENCE) = stripFences_from k s ++ [LF]
  \/ stripFences_from k (s ++ LF :: FENCE) = stripFences_from k s.
Proof.
  revert k; induction s as [|c rest IH]; intros k Hk.
  - left. assert (k = 0) as -> by (simpl in Hk; lia). reflexivity.
  - destruct k as [|k].
    + destruct (jsstring_eqb (c :: rest) FENCE_JSON) eqn:Heq.
      * apply jsstring_eqb_eq in Heq. rewrite Heq. right. reflexivity.
      * pose proof (fenceMatchLength_before_suffix _ Heq) as Hm.
        pose proof (fenceMatchLength_le (c :: rest)) as Hle.
        change ((c :: rest) ++ LF :: FENCE)
          with (c :: (rest ++ LF :: FENCE)) in *.
        cbn [stripFences_from]. rewrite Hm.
        destruct (fenceMatchLength (c :: rest)) as [|k'].
        -- destruct (IH 0) as [H|H]; [lia| |]; rewrite H; auto.
        -- apply IH. simpl in Hle. lia.
    + simpl. apply IH. simpl in Hk. lia.
Qed.

Lemma stripFences_fenced (body : jsstring) :
  stripFences (fenced body) = stripFences body ++ [LF]
  \/ stripFences (fenced body) = stripFences body.
Proof.
  unfold stripFences, fenced.
  change (stripFences_from 0 (FENCE_JSON_LF ++ body ++ LF :: FENCE))
    with (stripFences_from 0 (body ++ LF :: FENCE)).
  apply stripFences_from_suffix. lia.
Qed.

Lemma FENCE_unfold : FENCE = [BACKTICK; BACKTICK; BACKTICK].
Proof. reflexivity. Qed.

Lemma startsWith_FENCE_ticks (s : jsstring) :
  startsWith FENCE s = true <-> 3 <= leadingTicks s.
Proof.
  rewrite FENCE_unfold.
  destruct s as [|a [|b [|c s]]]; cbn [startsWith leadingTicks];
    rewrite ?(N.eqb_sym BACKTICK);
    repeat match goal with
           | |- context [(?x =? BACKTICK)%N] => destruct (x =? BACKTICK)%N
           end;
    cbn [andb]; split; intros H; try discriminate; try lia; reflexivity.
Qed.

Lemma startsWith_prefix (p q s : jsstring) :
  startsWith (p ++ q) s = true -> startsWith p s = true.
Proof.
  revert s; induction p as [|a p IH]; intros s H; [reflexivity|].
  destruct s as [|b s]; simpl in *; [discriminate|].
  apply andb_true_iff in H as [Hab H].
  rewrite Hab. simpl. apply IH. exact H.
Qed.

(** The pattern matches at the head of [s] exactly when [s] starts with three
    backticks. *)
Lemma fenceMatchLength_ticks (s : jsstring) :
  fenceMatchLength s = 0 <-> leadingTicks s <= 2.
Proof.
  unfold fenceMatchLength.
  destruct (startsWith FENCE_JSON_LF s) eqn:H1.
  { apply (startsWith_prefix FENCE (lit "json" ++ [LF])) in H1.
    apply startsWith_FENCE_ticks in H1. split; [discriminate|lia]. }
  destruct (startsWith FENCE_JSON s) eqn:H2.
  { apply (startsWith_prefix FENCE (lit "json")) in H2.
    apply startsWith_FENCE_ticks in H2. split; [discriminate|lia]. }
  destruct (startsWith FENCE s) eqn:H3.
  { apply startsWith_FENCE_ticks in H3. split; [discriminate|lia]. }
  split; [|reflexivity]. intros _.
  destruct (le_lt_dec 3 (leadingTicks s)) as [Hge|Hlt]; [|lia].
  apply startsWith_FENCE_ticks in Hge. congruence.
Qed.

(** The output of the pass never starts with three backticks; where the pass
    keeps the head of its input, it adds no leading backtick. *)
Lemma stripFences_from_ticks (s : jsstring) (k : nat) :
  leadingTicks (stripFences_from k s) <= 2
  /\ (k = 0 -> leadingTicks s <= 2 ->
      leadingTicks (stripFences_from k s) <= leadingTicks s).
Proof.
  revert k; induction s as [|c rest IH]; intros k.
  - simpl. split; intros; lia.
  - destruct k as [|k]; [|simpl; split; [apply IH|discriminate]].
    cbn [stripFences_from].
    destruct (fenceMatchLength (c :: rest)) as [|k'] eqn:Hm.
    + apply fenceMatchLength_ticks in Hm.
      destruct (IH 0) as [IH1 IH2].
      cbn [leadingTicks] in *.
      destruct (c =? BACKTICK)%N; [|split; intros; lia].
      assert (leadingTicks (stripFences_from 0 rest) <= leadingTicks rest)
        by (apply IH2; [reflexivity|lia]).
      split; intros; lia.
    + split; [apply IH|]. intros _ H.
      apply fenceMatchLength_ticks in H. congruence.
Qed.

Lemma stripFences_from_no_fence (s : jsstring) (k : nat) :
  includes FENCE (stripFences_from k s) = false.
Proof.
  revert k; induction s as [|c rest IH]; intros k.
  - reflexivity.
  - destruct k as [|k]; [|simpl; apply IH].
    cbn [stripFences_from].
    destruct (fenceMatchLength (c :: rest)) as [|k'] eqn:Hm; [|apply IH].
    destruct (stripFences_from_ticks (c :: rest) 0) as [H _].
    cbn [stripFences_from] in H. rewrite Hm in H.
    cbn [includes]. rewrite IH, orb_false_r.
    destruct (startsWith FENCE (c :: stripFences_from 0 rest)) eqn:Hs;
      [|reflexivity].
    apply startsWith_FENCE_ticks in Hs. lia.
Qed.

Lemma cleanJsonString_brackets (str pre mid post : jsstring) :
  trim (stripFences str) = pre ++ LBRACKET :: mid ++ RBRACKET :: post ->
  ~ In LBRACKET pre -> ~ In RBRACKET post ->
  cleanJsonString str = LBRACKET :: mid ++ [RBRACKET].
Proof.
  intros Heq Hpre Hpost. unfold cleanJsonString. rewrite Heq.
  unfold indexOf, lastIndexOf.
  rewrite indexOf_from_first by exact Hpre.
  replace (pre ++ LBRACKET :: mid ++ RBRACKET :: post)
    with ((pre ++ LBRACKET :: mid) ++ RBRACKET :: post)
    by (rewrite <- app_assoc; reflexivity).
  rewrite lastIndexOf_from_last by exact Hpost.
  rewrite length_app. cbn [length].
  destruct (Z.eqb_spec (0 + Z.of_nat (length pre)) (-1)) as [E|_]; [lia|].
  destruct (Z.eqb_spec
              (0 + Z.of_nat (length pre + S (length mid))) (-1)) as [E|_];
    [lia|].
  cbn [negb andb].
  replace (0 + Z.of_nat (length pre))%Z with (Z.of_nat (length pre)) by lia.
  replace (0 + Z.of_nat (length pre + S (length mid)) + 1)%Z
    with (Z.of_nat (length pre + S (S (length mid)))) by lia.
  rewrite substring_in_range;
    [|lia|repeat (rewrite length_app || cbn [length]); lia].
  rewrite <- app_assoc. rewrite skipn_app, skipn_all, Nat.sub_diag.
  cbn [skipn app].
  replace (length pre + S (S (length mid)) - length pre)
    with (S (length mid + 1)) by lia.
  cbn [firstn]. f_equal.
  replace (mid ++ RBRACKET :: post) with ((mid ++ [RBRACKET]) ++ post)
    by (rewrite <- app_assoc; reflexivity).
  rewrite firstn_app.
  replace (length mid + 1) with (length (mid ++ [RBRACKET]))
    by (rewrite length_app; reflexivity).
  rewrite firstn_all, Nat.sub_diag. cbn [firstn]. apply app_nil_r.
Qed.

Lemma cleanJsonString_fenced_eq (body : jsstring) :
  cleanJsonString (fenced body) = cleanJsonString body.
Proof.
  unfold cleanJsonString.
  destruct (stripFences_fenced body) as [H|H]; rewrite H;
    rewrite ?trim_snoc_LF; reflexivity.
Qed.

(** C5.  [cleanJsonString] strips the code fences: no fence is left after the
    replacement pass.  It keeps the text from the first opening bracket to
    the last closing bracket of the stripped and trimmed response.  A body
    wrapped in a json code fence cleans to the same string as the body
    alone. *)
Theorem cleanJsonString_spec :
  (forall str, includes FENCE (stripFences str) = false)
  /\ (forall str pre mid post,
        trim (stripFences str) = pre ++ LBRACKET :: mid ++ RBRACKET :: post ->
        ~ In LBRACKET pre -> ~ In RBRACKET post ->
        cleanJsonString str = LBRACKET :: mid ++ [RBRACKET])
  /\ (forall body, cleanJsonString (fenced body) = cleanJsonString body).
Proof.
  split; [|split].
  - intros str. apply stripFences_from_no_fence.
  - exact cleanJsonString_brackets.
  - exact cleanJsonString_fenced_eq.
Qed.

Lemma cleanJsonString_spec_witness :
  cleanJsonString (fenced (lit "Sure: [1, 2] done")) = lit "[1, 2]"
  /\ cleanJsonString (lit "Sure: [1, 2] done") = lit "[1, 2]".
Proof.
  destruct cleanJsonString_spec as [_ [Hb Hf]].
  rewrite Hf. split;
    apply (Hb (lit "Sure: [1, 2] done") (lit "Sure: ") (lit "1, 2")
             (lit " done"));
    solve [ reflexivity | vm_compute; intuition discriminate ].
Defined.

(** ** The normaliser *)


Lemma getProp_non_null (item : json) (k : jsstring) :
  item <> JNull -> getProp item k = Normal (fieldOf item k).
Proof. destruct item; intros H; try reflexivity. congruence. Qed.

Lemma normalizeItem_null :
  normalizeItem JNull = Throw (ThrowError (nullReadError (lit "sentiment"))).
Proof. reflexivity. Qed.

Lemma normalizeItem_returns (item : json) :
  item <> JNull -> exists r, normalizeItem item = Normal r.
Proof.
  intros Hnn. unfold normalizeItem.
  rewrite !(getProp_non_null _ _ Hnn). cbn [bind].
  eexists. reflexivity.
Qed.




Lemma mapM_normalizeItem_total (items : list json) :
  Forall (fun item => item <> JNull) items ->
  exists rs, mapM normalizeItem items = Normal rs /\ length rs = length items.
Proof.
  induction 1 as [|item items Hnn _ (rs & Hrs & Hlen)].
  - exists []. split; reflexivity.
  - destruct (normalizeItem_returns item Hnn) as (r & Hr).
    exists (r :: rs). cbn [mapM]. rewrite Hr, Hrs. cbn [bind length].
    split; [reflexivity|]. rewrite Hlen. reflexivity.
Qed.

Lemma mapM_normalizeItem_throws (items : list json) (t : Thrown) :
  mapM normalizeItem items = Throw t ->
  t = ThrowError (nullReadError (lit "sentiment")).
Proof.
  induction items as [|item items IH]; cbn [mapM]; [discriminate|].
  destruct item; cbn [bind];
    try (destruct (mapM normalizeItem items); cbn [bind];
         [discriminate | intros [= <-]; apply IH; reflexivity]).
  cbv [normalizeItem getProp bind]. intros [= <-]. reflexivity.
Qed.

(** ** The service: guards, parsing, classification *)

Section ServiceProperties.

Variable JSON_parse : jsstring -> option json.
Variable generateContent : Request -> ApiReply.

Lemma analyze_reaches_response (texts : list jsstring) (key : jsstring)
  (response : GenerateContentResponse) :
  key <> [] -> texts <> [] ->
  generateContent {| req_apiKey := key; req_texts := texts |}
  = ApiReturns response ->
  sr_outcome (analyzeSentimentBatch JSON_parse generateContent texts key)
  = match processResponse JSON_parse response with
    | Normal rs => Resolved rs
    | Throw t => Rejected (catchHandler t)
    end.
Proof.
  intros Hk Ht Hg. unfold analyzeSentimentBatch, tryBlock.
  destruct key; [congruence|]. destruct texts; [congruence|].
  cbn [sr_outcome]. rewrite Hg. reflexivity.
Qed.

Lemma analyze_api_throws (texts : list jsstring) (key : jsstring)
  (e : JsError) :
  key <> [] -> texts <> [] ->
  generateContent {| req_apiKey := key; req_texts := texts |}
  = ApiThrows e ->
  sr_outcome (analyzeSentimentBatch JSON_parse generateContent texts key)
  = Rejected (classifyJsError e).
Proof.
  intros Hk Ht Hg. unfold analyzeSentimentBatch, tryBlock.
  destruct key; [congruence|]. destruct texts; [congruence|].
  cbn [sr_outcome]. rewrite Hg. reflexivity.
Qed.

End ServiceProperties.

(** C6.  When the remote call returns a response with a candidate and a
    non-empty text: if the cleaned text does not parse, the call is rejected
    with the PARSE_ERROR of a malformed response; if it parses to a value
    that is not an array, the call is rejected with the PARSE_ERROR of an
    invalid structure. *)
Theorem analyzeSentimentBatch_parse_error
  (JSON_parse : jsstring -> option json) (generateContent : Request -> ApiReply)
  (texts : list jsstring) (key : jsstring) (c : json) (cs : list json)
  (jsonText : jsstring) :
  key <> [] -> texts <> [] -> jsonText <> [] ->
  generateContent {| req_apiKey := key; req_texts := texts |}
  = ApiReturns {| candidates := Some (c :: cs);
                  response_text := Some jsonText |} ->
  (JSON_parse (cleanJsonString jsonText) = None ->
   sr_outcome (analyzeSentimentBatch JSON_parse generateContent texts key)
   = Rejected malformedJsonError
   /\ ge_code malformedJsonError = PARSE_ERROR)
  /\ (forall v, JSON_parse (cleanJsonString jsonText) = Some v ->
      (forall items, v <> JArray items) ->
      sr_outcome (analyzeSentimentBatch JSON_parse generateContent texts key)
      = Rejected invalidStructureError
      /\ ge_code invalidStructureError = PARSE_ERROR).
Proof.
  intros Hk Ht Hj Hg.
  rewrite (analyze_reaches_response JSON_parse generateContent _ _ _ Hk Ht Hg).
  unfold processResponse. cbn [candidates response_text].
  destruct jsonText as [|ch jsonText]; [congruence|].
  split.
  - intros ->. split; reflexivity.
  - intros v -> Hv. destruct v; try (split; reflexivity).
    exfalso. eapply Hv. reflexivity.
Qed.

Lemma analyzeSentimentBatch_parse_error_witness :
  sr_outcome
    (analyzeSentimentBatch Samples.parse
       (fun _ => Samples.respond Samples.objectText)
       (Samples.texts 1) Samples.key)
  = Rejected invalidStructureError
  /\ sr_outcome
       (analyzeSentimentBatch Samples.parse
          (fun _ => Samples.respond (lit "not json"))
          (Samples.texts 1) Samples.key)
     = Rejected malformedJsonError.
Proof.
  split.
  - refine (proj1 (proj2 (analyzeSentimentBatch_parse_error Samples.parse
             (fun _ => Samples.respond Samples.objectText)
             (Samples.texts 1) Samples.key (JObject []) []
             Samples.objectText _ _ _ _)
             (JObject [(lit "a", JNumber (Finite 1%Q))]) _ _));
      try (vm_compute; discriminate); try reflexivity;
      intros items; discriminate.
  - refine (proj1 (proj1 (analyzeSentimentBatch_parse_error Samples.parse
             (fun _ => Samples.respond (lit "not json"))
             (Samples.texts 1) Samples.key (JObject []) []
             (lit "not json") _ _ _ _) _));
      try (vm_compute; discriminate); reflexivity.
Defined.

(** C10.  With an empty credential the call is rejected with the AUTH_ERROR
    of a missing key, whatever the texts, and nothing is sent; with a
    credential and no texts it resolves to the empty list and nothing is
    sent. *)
Theorem analyzeSentimentBatch_guards
  (JSON_parse : jsstring -> option json)
  (generateContent : Request -> ApiReply) :
  (forall texts,
      analyzeSentimentBatch JSON_parse generateContent texts []
      = {| sr_outcome := Rejected missingKeyError; sr_requests := [] |}
      /\ ge_code missingKeyError = AUTH_ERROR)
  /\ (forall key, key <> [] ->
      analyzeSentimentBatch JSON_parse generateContent [] key
      = {| sr_outcome := Resolved []; sr_requests := [] |}).
Proof.
  split.
  - intros texts. split; reflexivity.
  - intros [|c key] Hk; [congruence|]. reflexivity.
Qed.

Lemma analyzeSentimentBatch_guards_witness :
  analyzeSentimentBatch Samples.parse (fun _ => Samples.respond (lit "[1]"))
    [] Samples.key
  = {| sr_outcome := Resolved []; sr_requests := [] |}.
Proof.
  apply (analyzeSentimentBatch_guards Samples.parse
           (fun _ => Samples.respond (lit "[1]"))).
  vm_compute. discriminate.
Defined.

(** A [null] element of the parsed array makes the normaliser throw; the
    [catch] block classifies the [TypeError] as UNKNOWN. *)
Lemma null_element_is_unknown :
  sr_outcome
    (analyzeSentimentBatch Samples.parse
       (fun _ => Samples.respond (lit "[null]"))
       (Samples.texts 1) Samples.key)
  = Rejected (unknownError None).
Proof. vm_compute. reflexivity. Qed.

(** ** The error classifier *)

Ltac in_table :=
  vm_compute; repeat (first [left; reflexivity | right]).

Lemma classifyJsError_in_table (e : JsError) :
  In (ge_code (classifyJsError e), ge_solution (classifyJsError e))
    SUGGESTIONS.
Proof.
  unfold classifyJsError.
  repeat match goal with
         | |- context [if ?b then _ else _] => destruct b
         end; in_table.
Qed.

Lemma processResponse_throws_in_table
  (JSON_parse : jsstring -> option json) (r : GenerateContentResponse)
  (t : Thrown) :
  processResponse JSON_parse r = Throw t ->
  In (ge_code (catchHandler t), ge_solution (catchHandler t)) SUGGESTIONS.
Proof.
  unfold processResponse.
  destruct (candidates r) as [[|c cs]|];
    try (intros [= <-]; in_table).
  destruct (response_text r) as [[|ch txt]|];
    try (intros [= <-]; in_table).
  destruct (JSON_parse (cleanJsonString (ch :: txt))) as [[]|];
    try (intros [= <-]; in_table).
  intros H. apply mapM_normalizeItem_throws in H. subst t. in_table.
Qed.

(** C7, as the code has it.  A failure of the remote call is classified by
    the first trigger that holds, in the order AUTH_ERROR, RATE_LIMIT,
    SERVER_ERROR, INVALID_REQUEST (400), INVALID_REQUEST (404), UNKNOWN; a
    returned response fails with SAFETY_BLOCK without candidates, else with
    SERVER_ERROR when its text is empty, else with PARSE_ERROR when the
    cleaned text does not parse or is not an array.  Every rejection carries
    the suggestion of its throw site, one of the eleven of [SUGGESTIONS]. *)
Theorem classifier_by_priority :
  (forall e : JsError,
      (authTrigger e = true ->
       classifyJsError e = invalidKeyError (errorStatus e))
      /\ (authTrigger e = false -> rateTrigger e = true ->
          classifyJsError e = rateLimitError)
      /\ (authTrigger e = false -> rateTrigger e = false ->
          serverTrigger e = true ->
          classifyJsError e = unavailableError)
      /\ (authTrigger e = false -> rateTrigger e = false ->
          serverTrigger e = false -> badRequestTrigger e = true ->
          classifyJsError e = invalidRequestError)
      /\ (authTrigger e = false -> rateTrigger e = false ->
          serverTrigger e = false -> badRequestTrigger e = false ->
          notFoundTrigger e = true ->
          classifyJsError e = modelNotFoundError)
      /\ (authTrigger e = false -> rateTrigger e = false ->
          serverTrigger e = false -> badRequestTrigger e = false ->
          notFoundTrigger e = false ->
          classifyJsError e = unknownError (errorStatus e)))
  /\ (forall (JSON_parse : jsstring -> option json) r,
      (candidates r = None \/ candidates r = Some [] ->
       processResponse JSON_parse r = Throw (ThrowGemini safetyBlockError))
      /\ (forall c cs, candidates r = Some (c :: cs) ->
          response_text r = None \/ response_text r = Some [] ->
          processResponse JSON_parse r
          = Throw (ThrowGemini emptyResponseError))
      /\ (forall c cs ch txt, candidates r = Some (c :: cs) ->
          response_text r = Some (ch :: txt) ->
          JSON_parse (cleanJsonString (ch :: txt)) = None ->
          processResponse JSON_parse r
          = Throw (ThrowGemini malformedJsonError))
      /\ (forall c cs ch txt v, candidates r = Some (c :: cs) ->
          response_text r = Some (ch :: txt) ->
          JSON_parse (cleanJsonString (ch :: txt)) = Some v ->
          (forall items, v <> JArray items) ->
          processResponse JSON_parse r
          = Throw (ThrowGemini invalidStructureError)))
  /\ (forall st,
      map ge_code
        [missingKeyError; invalidKeyError st; rateLimitError;
         unavailableError; emptyResponseError; safetyBlockError;
         invalidRequestError; modelNotFoundError; malformedJsonError;
         invalidStructureError; unknownError st]
      = [AUTH_ERROR; AUTH_ERROR; RATE_LIMIT; SERVER_ERROR; SERVER_ERROR;
         SAFETY_BLOCK; INVALID_REQUEST; INVALID_REQUEST; PARSE_ERROR;
         PARSE_ERROR; UNKNOWN])
  /\ (forall (JSON_parse : jsstring -> option json) generateContent texts key e,
      sr_outcome (analyzeSentimentBatch JSON_parse generateContent texts key)
      = Rejected e ->
      In (ge_code e, ge_solution e) SUGGESTIONS).
Proof.
  split; [|split; [|split]].
  - intros e. unfold classifyJsError.
    fold (authTrigger e). fold (rateTrigger e). fold (serverTrigger e).
    fold (badRequestTrigger e). fold (notFoundTrigger e).
    repeat split; intros; 
      repeat match goal with H : _ = _ |- _ => rewrite H; clear H end;
      reflexivity.
  - intros JSON_parse r. unfold processResponse. repeat split.
    + intros [-> | ->]; reflexivity.
    + intros c cs -> [-> | ->]; reflexivity.
    + intros c cs ch txt -> -> ->. reflexivity.
    + intros c cs ch txt v -> -> -> Hv. destruct v; try reflexivity.
      exfalso. eapply Hv. reflexivity.
  - intros st. reflexivity.
  - intros JSON_parse generateContent texts key e.
    unfold analyzeSentimentBatch.
    destruct key as [|k key]; cbn [sr_outcome].
    { intros [= <-]. in_table. }
    destruct texts as [|t texts]; cbn [sr_outcome]; [discriminate|].
    unfold tryBlock.
    destruct (generateContent _) as [e0|r].
    + intros [= <-]. apply classifyJsError_in_table.
    + destruct (processResponse JSON_parse r) as [rs|t0] eqn:Hp;
        [discriminate|].
      intros [= <-]. eapply processResponse_throws_in_table. exact Hp.
Qed.

Lemma classifier_by_priority_witness :
  classifyJsError
    {| err_message := lit "Quota exceeded for API key";
       err_status := Some 429%N; err_response_status := None |}
  = invalidKeyError (Some 429%N)
  /\ classifyJsError
       {| err_message := lit "Quota exceeded";
          err_status := None; err_response_status := Some 429%N |}
     = rateLimitError
  /\ processResponse Samples.parse
       {| candidates := Some []; response_text := None |}
     = Throw (ThrowGemini safetyBlockError).
Proof.
  destruct classifier_by_priority as [Hc [Hr _]].
  split; [|split].
  - apply Hc. reflexivity.
  - apply Hc; reflexivity.
  - apply Hr. right. reflexivity.
Defined.

(** C7, counterexample to the claim as stated: two rejections of kind
    SERVER_ERROR carry different suggestions, one for an empty response text
    and one for a 503 of the remote call. *)
Lemma suggestion_not_fixed_by_kind :
  sr_outcome
    (analyzeSentimentBatch Samples.parse (fun _ => Samples.respond [])
       (Samples.texts 1) Samples.key)
  = Rejected emptyResponseError
  /\ sr_outcome
       (analyzeSentimentBatch Samples.parse
          (fun _ => Samples.fail (lit "Service down") (Some 503%N))
          (Samples.texts 1) Samples.key)
     = Rejected unavailableError
  /\ ge_code emptyResponseError = SERVER_ERROR
  /\ ge_code unavailableError = SERVER_ERROR
  /\ ge_solution emptyResponseError <> ge_solution unavailableError.
Proof.
  repeat split; try reflexivity. vm_compute. discriminate.
Qed.

(** ** Groups of a batch *)

Lemma length_slice {A : Type} (l : list A) (i j : nat) :
  length (slice l i j) = Nat.min (j - i) (length l - i).
Proof. unfold slice. rewrite length_firstn, length_skipn. reflexivity. Qed.

Lemma firstn_plus {A : Type} (n m : nat) (l : list A) :
  firstn (n + m) l = firstn n l ++ firstn m (skipn n l).
Proof.
  revert l; induction n as [|n IH]; intros l; [reflexivity|].
  destruct l as [|x l]; cbn [Nat.add firstn skipn app].
  - rewrite firstn_nil. reflexivity.
  - rewrite IH. reflexivity.
Qed.

Lemma length_chunkAt (texts : list jsstring) (j : nat) :
  length (chunkAt texts j)
  = Nat.min CHUNK_SIZE (length texts - j * CHUNK_SIZE).
Proof.
  unfold chunkAt. rewrite length_slice. f_equal. lia.
Qed.

Lemma chunkCount_spec (texts : list jsstring) (m : nat) :
  length texts <= m * CHUNK_SIZE <-> chunkCount texts <= m.
Proof.
  unfold chunkCount, CHUNK_SIZE. cbn [Nat.sub].
  pose proof (Nat.div_mod_eq (length texts + 7) 8) as Hd.
  pose proof (Nat.mod_upper_bound (length texts + 7) 8) as Hm.
  split; intros H; nia.
Qed.

Lemma chunkCount_lt (texts : list jsstring) (j : nat) :
  j * CHUNK_SIZE < length texts <-> j < chunkCount texts.
Proof.
  pose proof (chunkCount_spec texts j). lia.
Qed.

Lemma chunksUpTo_succ (texts : list jsstring) (m : nat) :
  chunksUpTo texts (S m) = chunksUpTo texts m ++ [chunkAt texts m].
Proof.
  unfold chunksUpTo. rewrite seq_S, map_app. reflexivity.
Qed.

Lemma requestsUpTo_succ (key : jsstring) (texts : list jsstring) (m : nat) :
  requestsUpTo key texts (S m)
  = requestsUpTo key texts m
    ++ [{| req_apiKey := key; req_texts := chunkAt texts m |}].
Proof.
  unfold requestsUpTo. rewrite chunksUpTo_succ, map_app. reflexivity.
Qed.

Lemma length_requestsUpTo (key : jsstring) (texts : list jsstring) (m : nat) :
  length (requestsUpTo key texts m) = m.
Proof.
  unfold requestsUpTo, chunksUpTo. rewrite !length_map, length_seq.
  reflexivity.
Qed.

Lemma concat_chunksUpTo (texts : list jsstring) (m : nat) :
  concat (chunksUpTo texts m) = firstn (m * CHUNK_SIZE) texts.
Proof.
  induction m as [|m IH].
  - reflexivity.
  - rewrite chunksUpTo_succ, concat_app, IH. cbn [concat].
    rewrite app_nil_r. unfold chunkAt, slice.
    replace (m * CHUNK_SIZE + CHUNK_SIZE - m * CHUNK_SIZE)
      with CHUNK_SIZE by lia.
    replace (S m * CHUNK_SIZE) with (m * CHUNK_SIZE + CHUNK_SIZE) by lia.
    rewrite firstn_plus. reflexivity.
Qed.

Lemma concat_all_chunks (texts : list jsstring) :
  concat (chunksUpTo texts (chunkCount texts)) = texts.
Proof.
  rewrite concat_chunksUpTo. apply firstn_all2.
  apply chunkCount_spec. lia.
Qed.

(** ** processBatch *)

Section BatchProperties.

Variable JSON_parse : jsstring -> option json.
Variable remote : nat -> Request -> ApiReply.
Variable generateId : nat -> nat -> jsstring.
Variable Date_now : nat -> nat -> N.
Variable texts : list jsstring.
Variable key : jsstring.
Hypothesis key_present : key <> [].

(** Hoare-style rule for the loop, with termination: an invariant kept by
    every iteration that falls through, and a postcondition established at
    loop exit and by every [break]. *)
Lemma chunkLoop_rule (I : nat -> LoopVars -> Run -> Prop)
  (Q : LoopVars -> Run -> Prop) :
  (forall i vars run, length texts <= i -> I i vars run -> Q vars run) ->
  (forall i vars run, i < length texts -> I i vars run ->
     match loopBody JSON_parse remote generateId Date_now texts key
             i vars run with
     | (Continue, vars', run') => I (i + CHUNK_SIZE) vars' run'
     | (Break, vars', run') => Q vars' run'
     end) ->
  forall fuel i vars run,
    length texts <= i + fuel -> I i vars run ->
    exists vars' run',
      chunkLoop JSON_parse remote generateId Date_now fuel texts key
        i vars run = Some (vars', run')
      /\ Q vars' run'.
Proof.
  intros Hexit Hbody fuel.
  induction fuel as [|fuel IH]; intros i vars run Hfuel HI;
    cbn [chunkLoop]; destruct (Nat.ltb_spec i (length texts)) as [Hlt|Hge].
  - lia.
  - exists vars, run. split; [reflexivity|]. apply (Hexit i); assumption.
  - specialize (Hbody i vars run Hlt HI).
    destruct (loopBody JSON_parse remote generateId Date_now texts key
                i vars run) as [[[|] vars'] run'].
    + apply IH; [unfold CHUNK_SIZE; lia|exact Hbody].
    + exists vars', run'. split; [reflexivity|exact Hbody].
  - exists vars, run. split; [reflexivity|]. apply (Hexit i); assumption.
Qed.

Lemma sr_requests_sent (gen : Request -> ApiReply) (chunk : list jsstring) :
  chunk <> [] ->
  sr_requests (analyzeSentimentBatch JSON_parse gen chunk key)
  = [{| req_apiKey := key; req_texts := chunk |}].
Proof.
  intros Hc. unfold analyzeSentimentBatch.
  destruct key; [exfalso; apply key_present; reflexivity|].
  destruct chunk; [congruence|]. reflexivity.
Qed.

Lemma slice_nonempty (i : nat) :
  i < length texts -> slice texts i (i + CHUNK_SIZE) <> [].
Proof.
  intros Hi Hs. apply (f_equal (@length _)) in Hs.
  rewrite length_slice in Hs. unfold CHUNK_SIZE in Hs. simpl in Hs. lia.
Qed.

(** The three ways an iteration at index [i] goes, by the outcome of the
    service call. *)
Lemma loopBody_cases (i : nat) (run : Run) :
  i < length texts ->
  let chunk := slice texts i (i + CHUNK_SIZE) in
  let sent :=
    step (sendRequests [{| req_apiKey := key; req_texts := chunk |}]) run in
  match sr_outcome
          (analyzeSentimentBatch JSON_parse
             (remote (length (network (cur run)))) chunk key) with
  | Resolved rs =>
      loopBody JSON_parse remote generateId Date_now texts key
        i idleVars run
      = (Continue, idleVars,
         step (setBatchProgress (markProcessed (length chunk)))
           (step (setResults
                    (fun prev =>
                       newResults generateId Date_now i chunk rs ++ prev))
                 sent))
  | Rejected e =>
      if ErrorCode_eqb (ge_code e) AUTH_ERROR then
        loopBody JSON_parse remote generateId Date_now texts key
          i idleVars run
        = (Break,
           {| authErrorOccurred := true; criticalError := Some e |},
           step (setIsApiKeyModalOpen true) (step (setApiKey []) sent))
      else
        loopBody JSON_parse remote generateId Date_now texts key
          i idleVars run
        = (Continue, idleVars,
           step (showToast
                   (lit "Batch " ++ decimal (i / CHUNK_SIZE + 1)
                      ++ lit " failed.") error)
             (step (setBatchProgress (markErrors (length chunk))) sent))
  end.
Proof.
  intros Hi chunk sent. unfold loopBody. cbn [idleVars authErrorOccurred].
  fold chunk. rewrite (sr_requests_sent _ chunk (slice_nonempty i Hi)).
  fold sent.
  destruct (sr_outcome _) as [rs|e]; [reflexivity|].
  destruct (ErrorCode_eqb (ge_code e) AUTH_ERROR); reflexivity.
Qed.

Variable net0 : list Request.
Variable base : list AppState.

Lemma LoopInv_exit (i : nat) (vars : LoopVars) (run : Run) :
  length texts <= i ->
  LoopInv JSON_parse remote texts key net0 base i vars run ->
  LoopPost JSON_parse remote texts key net0 base vars run.
Proof.
  intros Hge (Hv & m & added & Hi & Hm & Hnet & Hno & Hext & Hall & _).
  exists m, added. repeat split; try assumption.
  left. repeat split; try assumption.
  subst i. apply chunkCount_spec in Hge. lia.
Qed.

Lemma LoopInv_body (i : nat) (vars : LoopVars) (run : Run) :
  i < length texts ->
  LoopInv JSON_parse remote texts key net0 base i vars run ->
  match loopBody JSON_parse remote generateId Date_now texts key
          i vars run with
  | (Continue, vars', run') =>
      LoopInv JSON_parse remote texts key net0 base
        (i + CHUNK_SIZE) vars' run'
  | (Break, vars', run') =>
      LoopPost JSON_parse remote texts key net0 base vars' run'
  end.
Proof.
  intros Hlt (-> & m & added & Hi & Hm & Hnet & Hno & Hext & Hall
              & Htot & Hsum).
  pose proof (loopBody_cases i run Hlt) as Hc. cbv zeta in Hc.
  assert (length (network (cur run)) = length net0 + m) as Hlen
    by (rewrite Hnet, length_app, length_requestsUpTo; reflexivity).
  assert (slice texts i (i + CHUNK_SIZE) = chunkAt texts m) as Hchunk
    by (subst i; reflexivity).
  assert (m < chunkCount texts) as Hm'
    by (apply chunkCount_lt; lia).
  assert (length (chunkAt texts m) <= CHUNK_SIZE
          /\ i + length (chunkAt texts m) <= length texts) as [Hc8 Hcl]
    by (rewrite length_chunkAt; lia).
  rewrite Hlen, Hchunk in Hc.
  change (sr_outcome
            (analyzeSentimentBatch JSON_parse (remote (length net0 + m))
               (chunkAt texts m) key))
    with (outcomeOf JSON_parse remote (length net0) key texts m) in Hc.
  assert (forall o,
             outcomeOf JSON_parse remote (length net0) key texts m = o ->
             isAuthRejection o = false ->
             noAuthBefore JSON_parse remote texts key net0 (S m)) as Hstep.
  { intros o Ho Hna j Hj. destruct (Nat.eq_dec j m) as [->|Hne].
    - rewrite Ho. exact Hna.
    - apply Hno. lia. }
  destruct (outcomeOf JSON_parse remote (length net0) key texts m)
    as [rs|e] eqn:Ho.
  - rewrite Hc. split; [reflexivity|].
    eexists (S m), (_ :: _ :: cur run :: added).
    cbn [cur past step setBatchProgress setResults sendRequests network
         batchProgress markProcessed total processed errors].
    repeat split.
    + subst i. lia.
    + lia.
    + rewrite Hnet, requestsUpTo_succ, app_assoc. reflexivity.
    + apply (Hstep _ eq_refl). reflexivity.
    + rewrite Hext. reflexivity.
    + repeat (apply Forall_cons;
                [unfold progressBounded;
                 cbn [batchProgress setBatchProgress setResults
                      sendRequests markProcessed total processed errors];
                 lia|]).
      exact (Forall_inv_tail Hall).
    + exact Htot.
    + lia.
  - destruct (ErrorCode_eqb (ge_code e) AUTH_ERROR) eqn:He.
    + rewrite Hc.
      eexists (S m), (_ :: _ :: cur run :: added).
      cbn [cur past step setApiKey setIsApiKeyModalOpen sendRequests
           network].
      repeat split.
      * rewrite Hnet, requestsUpTo_succ, app_assoc. reflexivity.
      * rewrite Hext. reflexivity.
      * repeat (apply Forall_cons;
                  [unfold progressBounded;
                   cbn [batchProgress setApiKey setIsApiKeyModalOpen
                        sendRequests];
                   lia|]).
        exact (Forall_inv_tail Hall).
      * right. exists m, e, run. repeat split; try assumption.
        destruct (ge_code e); try discriminate. reflexivity.
    + rewrite Hc. split; [reflexivity|].
      eexists (S m), (_ :: _ :: cur run :: added).
      cbn [cur past step setBatchProgress showToast sendRequests network
           batchProgress markErrors total processed errors].
      repeat split.
      * subst i. lia.
      * lia.
      * rewrite Hnet, requestsUpTo_succ, app_assoc. reflexivity.
      * apply (Hstep _ eq_refl). exact He.
      * rewrite Hext. reflexivity.
      * repeat (apply Forall_cons;
                  [unfold progressBounded;
                   cbn [batchProgress setBatchProgress showToast
                        sendRequests markErrors total processed errors];
                   lia|]).
        exact (Forall_inv_tail Hall).
      * exact Htot.
      * lia.
Qed.

End BatchProperties.

Lemma trace_step (f : AppState -> AppState) (r : Run) :
  trace (step f r) = trace r ++ [f (cur r)].
Proof. reflexivity. Qed.

Section BatchRuns.

Variable JSON_parse : jsstring -> option json.
Variable remote : nat -> Request -> ApiReply.
Variable generateId : nat -> nat -> jsstring.
Variable Date_now : nat -> nat -> N.
Variable texts : list jsstring.
Variable s : AppState.
Hypothesis key_present : apiKey s <> [].

(** The states visited before the counters are reset. *)
Let base : list AppState := past (beginBatch texts s).

(** [processBatch] returns, and the loop ends in its postcondition. *)
Lemma processBatch_post :
  exists vars run,
    processBatch JSON_parse remote generateId Date_now texts s
    = Some (finallyBlock
              (postLoop texts (errors (batchProgress s)) vars run))
    /\ LoopPost JSON_parse remote texts (apiKey s) (network s) base
         vars run.
Proof.
  destruct (chunkLoop_rule JSON_parse remote generateId Date_now texts
              (apiKey s)
              (LoopInv JSON_parse remote texts (apiKey s) (network s) base)
              (LoopPost JSON_parse remote texts (apiKey s) (network s) base)
              (LoopInv_exit JSON_parse remote texts (apiKey s)
                 (network s) base)
              (LoopInv_body JSON_parse remote generateId Date_now texts
                 (apiKey s) key_present (network s) base)
              (length texts) 0 idleVars (beginBatch texts s))
    as (vars & run & Hloop & Hpost).
  - lia.
  - split; [reflexivity|].
    exists 0, [].
    repeat split; try reflexivity; try lia.
    + cbn. rewrite app_nil_r. reflexivity.
    + intros j Hj. lia.
    + constructor; [|constructor]. unfold progressBounded. cbn. lia.
  - exists vars, run. split; [|exact Hpost].
    unfold processBatch. destruct (apiKey s) eqn:Hk; [congruence|].
    fold idleVars. rewrite Hloop. reflexivity.
Qed.

(** The code after the loop and the [finally] block leave the requests,
    the credential and the counters as they are.  [added] are the states
    they add, most recent first. *)
Lemma after_loop_frame (captured : nat) (vars : LoopVars) (run : Run) :
  let final := finallyBlock (postLoop texts captured vars run) in
  exists added,
    past final = added ++ cur run :: past run
    /\ Forall (fun st =>
                 network st = network (cur run)
                 /\ apiKey st = apiKey (cur run)
                 /\ total (batchProgress st)
                    = total (batchProgress (cur run))
                 /\ processed (batchProgress st)
                    = processed (batchProgress (cur run))
                 /\ errors (batchProgress st)
                    = errors (batchProgress (cur run)))
         (cur final :: added).
Proof.
  unfold finallyBlock, postLoop.
  destruct (criticalError vars) as [ce|].
  { eexists [_; _; _]. split; [reflexivity|].
    repeat (apply Forall_cons; [repeat split|]). constructor. }
  destruct (authErrorOccurred vars).
  { eexists [_; _]. split; [reflexivity|].
    repeat (apply Forall_cons; [repeat split|]). constructor. }
  destruct ((_ =? 0)%Z && _).
  { eexists [_; _]. split; [reflexivity|].
    repeat (apply Forall_cons; [repeat split|]). constructor. }
  destruct (0 <? _)%Z.
  { eexists [_; _]. split; [reflexivity|].
    repeat (apply Forall_cons; [repeat split|]). constructor. }
  eexists [_]. split; [reflexivity|].
  repeat (apply Forall_cons; [repeat split|]). constructor.
Qed.

(** Every state from the reset of the counters to the end of the cycle
    keeps [processed + errors <= total]. *)
Lemma processBatch_progress_bounded :
  exists run added,
    processBatch JSON_parse remote generateId Date_now texts s = Some run
    /\ past run = added ++ base
    /\ Forall progressBounded (cur run :: added).
Proof.
  destruct processBatch_post
    as (vars & run & Hrun & m & older & _ & Hpast & Hall & _).
  destruct (after_loop_frame (errors (batchProgress s)) vars run)
    as (added & Hadd & Hsame).
  cbv zeta in Hadd, Hsame.
  set (final := finallyBlock
                  (postLoop texts (errors (batchProgress s)) vars run))
    in *.
  exists final, (added ++ cur run :: older). split; [exact Hrun|]. split.
  - rewrite Hadd, Hpast, <- app_assoc. reflexivity.
  - change (cur final :: added ++ cur run :: older)
      with ((cur final :: added) ++ cur run :: older).
    apply Forall_app. split; [|exact Hall].
    inversion Hall as [|x l Hb _]; subst.
    eapply Forall_impl; [|exact Hsame].
    intros st (_ & _ & Ht & Hp' & He). unfold progressBounded in *.
    rewrite Ht, Hp', He. exact Hb.
Qed.

End BatchRuns.

(** The processed counter never exceeds the total. *)
Lemma progressBounded_processed (s : AppState) :
  progressBounded s -> processed (batchProgress s) <= total (batchProgress s).
Proof. unfold progressBounded. lia. Qed.


(** C2.  On a batch of eight texts whose only group fails with a rate-limit
    error, the cycle ends with [errors = 8] and [processed = 0]: the stated
    invariant [errors <= processed] does not hold in the final state. *)
Theorem failed_group_breaks_progress_invariant :
  exists run,
    processBatch Samples.parse
      (fun _ _ => Samples.fail (lit "Quota exceeded") (Some 429%N))
      Samples.ids Samples.clock (Samples.texts 8) Samples.idle
    = Some run
    /\ batchProgress (cur run)
       = {| total := 8; processed := 0; errors := 8;
            bp_isProcessing := false |}
    /\ ~ progressInvariant (cur run).
Proof.
  eexists. split; [vm_compute; reflexivity|]. split; [reflexivity|].
  unfold progressInvariant. cbn. lia.
Qed.

Lemma isAuthRejection_auth (e : GeminiError) :
  ge_code e = AUTH_ERROR -> isAuthRejection (Rejected e) = true.
Proof. intros H. cbn. rewrite H. reflexivity. Qed.

(** C3.  When the call for group [k] is rejected with an AUTH_ERROR and no
    earlier group was, [processBatch] returns; the requests sent are those of
    groups 0 to [k] and no other; from the submission of group [k] to the
    end the requests and the processed counter do not change; the credential
    is cleared, the key dialog is open, and the error panel and the toast
    report the authentication failure. *)
Theorem auth_error_halts_batch
  (JSON_parse : jsstring -> option json) (remote : nat -> Request -> ApiReply)
  (generateId : nat -> nat -> jsstring) (Date_now : nat -> nat -> N)
  (texts : list jsstring) (s : AppState) (k : nat) (e : GeminiError) :
  apiKey s <> [] ->
  k < chunkCount texts ->
  (forall j, j < k ->
     isAuthRejection
       (outcomeOf JSON_parse remote (length (network s)) (apiKey s) texts j)
     = false) ->
  outcomeOf JSON_parse remote (length (network s)) (apiKey s) texts k
  = Rejected e ->
  ge_code e = AUTH_ERROR ->
  exists run before after,
    processBatch JSON_parse remote generateId Date_now texts s = Some run
    /\ network (cur run) = network s ++ requestsUpTo (apiKey s) texts (S k)
    /\ trace run = trace before ++ after
    /\ network (cur before) = network s ++ requestsUpTo (apiKey s) texts k
    /\ In (cur run) after
    /\ Forall (fun st =>
                 network st = network (cur run)
                 /\ processed (batchProgress st)
                    = processed (batchProgress (cur before)))
         after
    /\ apiKey (cur run) = []
    /\ isApiKeyModalOpen (cur run) = true
    /\ errorDetails (cur run) = Some (authFailedDetails e)
    /\ toast (cur run)
       = Some {| toast_msg := lit "Authentication Failed";
                 toast_type := error |}
    /\ isProcessing (cur run) = false.
Proof.
  intros Hkey Hk Hbefore Hout Hauth.
  destruct (processBatch_post JSON_parse remote generateId Date_now texts s
              Hkey)
    as (vars & run & Hrun & m & added & Hnet & _ & _ & Hcase).
  destruct Hcase as [(_ & -> & Hno) | (k' & e' & before & -> & Hk' & Hno
                                        & Hout' & Hauth' & -> & Hnetb & ->)].
  { specialize (Hno k Hk). rewrite Hout, (isAuthRejection_auth e Hauth) in Hno.
    discriminate. }
  assert (k' = k) as ->.
  { destruct (Nat.lt_trichotomy k' k) as [Hlt|[Heq|Hgt]]; [|exact Heq|].
    - specialize (Hbefore k' Hlt).
      rewrite Hout', (isAuthRejection_auth e' Hauth') in Hbefore.
      discriminate.
    - specialize (Hno k Hgt).
      rewrite Hout, (isAuthRejection_auth e Hauth) in Hno. discriminate. }
  rewrite Hout in Hout'. injection Hout' as <-.
  eexists _, before, _. split; [exact Hrun|].
  unfold finallyBlock, postLoop, haltedRun. cbn [criticalError].
  rewrite !trace_step.
  cbn [cur step setBatchProgress setIsProcessing showToast setErrorDetails
       setIsApiKeyModalOpen setApiKey sendRequests network apiKey
       isApiKeyModalOpen errorDetails toast isProcessing batchProgress
       markIdle processed].
  rewrite <- !app_assoc. cbn [app].
  repeat split.
  - rewrite Hnetb, requestsUpTo_succ, app_assoc. reflexivity.
  - exact Hnetb.
  - do 6 right. left. reflexivity.
  - repeat (apply Forall_cons; [split; reflexivity|]). constructor.
Qed.

Lemma auth_error_halts_batch_witness :
  exists run,
    processBatch Samples.parse
      (fun n _ => if n =? 1 then Samples.fail (lit "bad") (Some 401%N)
                  else Samples.respond (lit "[1]"))
      Samples.ids Samples.clock (Samples.texts 20) Samples.idle
    = Some run
    /\ map (fun r => length (req_texts r)) (network (cur run)) = [8; 8]
    /\ apiKey (cur run) = []
    /\ errorDetails (cur run)
       = Some (authFailedDetails (invalidKeyError (Some 401%N))).
Proof.
  destruct (auth_error_halts_batch Samples.parse
              (fun n _ => if n =? 1 then Samples.fail (lit "bad") (Some 401%N)
                          else Samples.respond (lit "[1]"))
              Samples.ids Samples.clock (Samples.texts 20) Samples.idle 1
              (invalidKeyError (Some 401%N)))
    as (run & before & after & Hrun & Hnet & _ & _ & _ & _ & Hkey & _
        & Herr & _).
  - vm_compute. discriminate.
  - vm_compute. lia.
  - intros j Hj. assert (j = 0) as -> by lia. reflexivity.
  - reflexivity.
  - reflexivity.
  - exists run. split; [exact Hrun|]. split; [|split; assumption].
    rewrite Hnet. reflexivity.
Defined.

(** C4.  [processBatch] returns; the requests it sends are the first [m]
    groups of the batch, one request per group, in input order, where group
    [j] is the slice of the texts from index [8 j] to [8 j + 8]; [m] is the
    number of groups unless an authentication error halts the batch.  Every
    group but the last has 8 texts, the last has the remaining 1 to 8, the
    groups concatenate to the batch, and 20 texts make groups of 8, 8
    and 4. *)
Theorem batch_is_sent_in_groups_of_eight
  (JSON_parse : jsstring -> option json) (remote : nat -> Request -> ApiReply)
  (generateId : nat -> nat -> jsstring) (Date_now : nat -> nat -> N)
  (texts : list jsstring) (s : AppState) :
  apiKey s <> [] ->
  (exists run m,
      processBatch JSON_parse remote generateId Date_now texts s = Some run
      /\ network (cur run) = network s ++ requestsUpTo (apiKey s) texts m
      /\ m <= chunkCount texts
      /\ (noAuthBefore JSON_parse remote texts (apiKey s) (network s)
            (chunkCount texts) ->
          m = chunkCount texts))
  /\ (forall j, S j < chunkCount texts ->
      length (chunkAt texts j) = CHUNK_SIZE)
  /\ (forall j, S j = chunkCount texts ->
      1 <= length (chunkAt texts j) <= CHUNK_SIZE
      /\ length (chunkAt texts j) = length texts - j * CHUNK_SIZE)
  /\ concat (chunksUpTo texts (chunkCount texts)) = texts
  /\ (length texts = 20 ->
      map (@length jsstring) (chunksUpTo texts (chunkCount texts))
      = [8; 8; 4]).
Proof.
  intros Hkey. split; [|split; [|split; [|split]]].
  - destruct (processBatch_post JSON_parse remote generateId Date_now texts s
                Hkey)
      as (vars & run & Hrun & m & added & Hnet & _ & _ & Hcase).
    destruct (after_loop_frame texts (errors (batchProgress s)) vars run)
      as (added' & _ & Hsame).
    cbv zeta in Hsame. apply Forall_inv in Hsame. destruct Hsame as [Hn _].
    eexists _, m. split; [exact Hrun|]. rewrite Hn. split; [exact Hnet|].
    destruct Hcase as [(_ & -> & _) | (k & e & before & -> & Hk & _ & Hout
                                        & Hauth & _)].
    + split; [lia|reflexivity].
    + split; [lia|]. intros Hno. specialize (Hno k Hk).
      rewrite Hout, (isAuthRejection_auth e Hauth) in Hno. discriminate.
  - intros j Hj. rewrite length_chunkAt.
    apply chunkCount_lt in Hj. unfold CHUNK_SIZE in *. lia.
  - intros j Hj. rewrite length_chunkAt.
    assert (j < chunkCount texts) as Hlt by lia.
    apply chunkCount_lt in Hlt.
    assert (chunkCount texts <= S j) as Hle by lia.
    apply chunkCount_spec in Hle. unfold CHUNK_SIZE in *. lia.
  - apply concat_all_chunks.
  - intros H20. unfold chunkCount. rewrite H20.
    change ((20 + (CHUNK_SIZE - 1)) / CHUNK_SIZE) with 3.
    unfold chunksUpTo. cbn [seq map]. rewrite !length_chunkAt, H20.
    reflexivity.
Qed.

Lemma batch_is_sent_in_groups_of_eight_witness :
  exists run,
    processBatch Samples.parse (fun _ _ => Samples.respond (lit "[1]"))
      Samples.ids Samples.clock (Samples.texts 20) Samples.idle
    = Some run
    /\ map (fun r => length (req_texts r)) (network (cur run)) = [8; 8; 4].
Proof.
  destruct (batch_is_sent_in_groups_of_eight Samples.parse
              (fun _ _ => Samples.respond (lit "[1]"))
              Samples.ids Samples.clock (Samples.texts 20) Samples.idle)
    as [(run & m & Hrun & Hnet & _ & Hm) _].
  - vm_compute. discriminate.
  - exists run. split; [exact Hrun|]. rewrite Hnet, Hm.
    + reflexivity.
    + intros j Hj. change (chunkCount (Samples.texts 20)) with 3 in Hj.
      destruct j as [|[|[|j]]]; try lia; reflexivity.
Defined.

(** ** downloadCSV *)



Lemma mapM_joinElement_strings (Number_toString : number -> jsstring)
  (vs : list json) :
  Forall isString vs ->
  mapM (joinElement Number_toString) vs = Normal (stringsOf vs).
Proof.
  induction 1 as [|v vs [s ->] _ IH]; [reflexivity|].
  cbn [mapM joinElement toString bind stringsOf map].
  unfold stringsOf in IH. rewrite IH. reflexivity.
Qed.







(** The document of one result whose text and explanation contain quotation
    marks. *)
Lemma downloadCSV_sample :
  downloadCSV Samples.numberText [Samples.result]
  = Normal
      (CSV_PREFIX
         ++ lit "ID,Text,Sentiment,Emotion,Is Sarcastic,Confidence,Keywords,Explanation"
         ++ [LF] ++ lit "a1b2c3d," ++ [DQUOTE] ++ lit "say "
         ++ [DQUOTE; DQUOTE] ++ lit "hi" ++ [DQUOTE; DQUOTE; DQUOTE]
         ++ lit ",Positive,Joy,No,0.5," ++ [DQUOTE] ++ lit "hi"
         ++ [DQUOTE] ++ lit "," ++ [DQUOTE] ++ lit "say "
         ++ [DQUOTE; DQUOTE] ++ lit "hi" ++ [DQUOTE; DQUOTE; DQUOTE]).
Proof. vm_compute. reflexivity. Qed.


(** A result without text makes the export throw. *)
Lemma downloadCSV_untyped_throws (Number_toString : number -> jsstring) :
  downloadCSV Number_toString
    [{| id := Samples.ids 0 0; text := None;
        fields := fields Samples.result; timestamp := 0%N |}]
  = Throw (ThrowError (undefinedReadError (lit "replace"))).
Proof. reflexivity. Qed.

(** ** handleFileUpload *)

Lemma splitLines_nonempty (s : jsstring) : splitLines s <> [].
Proof.
  destruct s as [|c rest]; cbn [splitLines]; [discriminate|].
  destruct (c =? LF)%N; [discriminate|].
  assert (match splitLines rest with
          | l :: ls => (c :: l) :: ls
          | [] => [[c]]
          end <> []) as Hkeep
    by (destruct (splitLines rest); discriminate).
  destruct (c =? CR)%N; [|exact Hkeep].
  destruct rest as [|d rest']; [exact Hkeep|].
  destruct (d =? LF)%N; [discriminate|exact Hkeep].
Qed.

Lemma splitLines_no_LF_bounded (n : nat) (s : jsstring) :
  length s <= n -> Forall (fun l => ~ In LF l) (splitLines s).
Proof.
  revert s; induction n as [|n IH]; intros s Hlen.
  - destruct s; [|cbn in Hlen; lia]. repeat constructor. intros [].
  - destruct s as [|c rest]; [repeat constructor; intros []|].
    cbn [length] in Hlen. cbn [splitLines].
    destruct (N.eqb_spec c LF) as [->|Hne].
    { constructor; [intros []|]. apply IH. lia. }
    assert (Forall (fun l => ~ In LF l)
              match splitLines rest with
              | l :: ls => (c :: l) :: ls
              | [] => [[c]]
              end) as Hkeep.
    { assert (Forall (fun l => ~ In LF l) (splitLines rest)) as Hr
        by (apply IH; lia).
      destruct (splitLines rest) as [|l ls].
      - repeat constructor. intros [H|[]]. congruence.
      - inversion Hr as [|? ? Hl Hls]; subst. constructor; [|exact Hls].
        intros [H|H]; [congruence|exact (Hl H)]. }
    destruct (c =? CR)%N; [|exact Hkeep].
    destruct rest as [|d rest']; [exact Hkeep|].
    destruct (d =? LF)%N; [|exact Hkeep].
    constructor; [intros []|]. apply IH. cbn [length] in Hlen. lia.
Qed.

Lemma splitLines_no_LF (s : jsstring) :
  Forall (fun l => ~ In LF l) (splitLines s).
Proof. apply (splitLines_no_LF_bounded (length s)). lia. Qed.

Lemma join_cons_head (sep : jsstring) (c : char) (l : jsstring)
  (ls : list jsstring) :
  join sep ((c :: l) :: ls) = c :: join sep (l :: ls).
Proof. destruct ls; reflexivity. Qed.

Lemma join_splitLines (s : jsstring) :
  ~ In CR s -> join [LF] (splitLines s) = s.
Proof.
  induction s as [|c rest IH]; intros Hcr; [reflexivity|].
  assert (c <> CR) as Hc by (intros ->; apply Hcr; left; reflexivity).
  assert (join [LF] (splitLines rest) = rest) as Hrest
    by (apply IH; intros H; apply Hcr; right; exact H).
  pose proof (splitLines_nonempty rest) as Hne.
  cbn [splitLines]. apply N.eqb_neq in Hc. rewrite Hc.
  destruct (N.eqb_spec c LF) as [->|_].
  - destruct (splitLines rest) as [|l ls]; [congruence|].
    change (join [LF] ([] :: l :: ls)) with (LF :: join [LF] (l :: ls)).
    rewrite Hrest. reflexivity.
  - destruct (splitLines rest) as [|l ls]; [congruence|].
    rewrite join_cons_head, Hrest. reflexivity.
Qed.

Lemma In_firstn {A : Type} (n : nat) (l : list A) (x : A) :
  In x (firstn n l) -> In x l.
Proof.
  intros H. rewrite <- (firstn_skipn n l). apply in_or_app. left. exact H.
Qed.

Lemma length_firstn_rows (rows : list jsstring) :
  rows <> [] -> 1 <= length (firstn MAX_ROWS rows) <= MAX_ROWS.
Proof.
  intros Hne. rewrite length_firstn.
  destruct rows as [|r rows]; [congruence|].
  cbn [length]. unfold MAX_ROWS. lia.
Qed.

Lemma capped_spec (rows texts : list jsstring) :
  capped rows = Some texts ->
  1 <= length texts <= MAX_ROWS /\ texts = firstn MAX_ROWS rows.
Proof.
  unfold capped. destruct rows as [|r rows]; [discriminate|].
  intros H.
  assert (texts = firstn MAX_ROWS (r :: rows)) as -> by congruence.
  split; [apply length_firstn_rows; discriminate|reflexivity].
Qed.

Section UploadProperties.

Variable toLowerCase : jsstring -> jsstring.

Lemma onload_submitted (name content : jsstring) (rows : list jsstring) :
  fileTexts toLowerCase name content = Some rows ->
  up_submitted (onload toLowerCase name content) = capped rows
  /\ up_read (onload toLowerCase name content) = true.
Proof.
  intros Hf. unfold onload. rewrite Hf.
  destruct (Nat.ltb_spec MAX_ROWS (length rows)) as [Hgt|Hle].
  - unfold slice. rewrite Nat.sub_0_r. cbn [skipn].
    rewrite length_firstn.
    destruct rows as [|r rows]; [cbn in Hgt; lia|].
    replace (0 <? Nat.min MAX_ROWS (length (r :: rows))) with true
      by (symmetry; apply Nat.ltb_lt; unfold MAX_ROWS in *; lia).
    split; reflexivity.
  - destruct rows as [|r rows]; [split; reflexivity|].
    cbn [length Nat.ltb Nat.leb up_submitted up_read capped].
    rewrite firstn_all2 by exact Hle. split; reflexivity.
Qed.

Lemma onload_unsupported (name content : jsstring) :
  fileTexts toLowerCase name content = None ->
  up_submitted (onload toLowerCase name content) = None
  /\ up_read (onload toLowerCase name content) = true.
Proof. intros Hf. unfold onload. rewrite Hf. split; reflexivity. Qed.

End UploadProperties.

(** C9.  A file above 2 MB (2097152 bytes) is refused with a toast and is
    not read.  Otherwise the content is split at line feeds, each optionally
    preceded by a carriage return, and the blank lines are dropped; a name
    that ends in neither .csv nor .txt submits nothing; for .txt the kept
    lines are submitted; for .csv the first kept line is dropped when it
    looks like a header; at most the first 100 rows are submitted, and
    nothing when no row is left.  Every submitted row is a non-blank line of
    the content. *)
Theorem handleFileUpload_spec (toLowerCase : jsstring -> jsstring) (f : File) :
  (MAX_FILE_SIZE = 2097152%N /\ MAX_ROWS = 100)
  /\ ((MAX_FILE_SIZE < file_size f)%N ->
      handleFileUpload toLowerCase (Some f)
      = {| up_toasts :=
             [errorToast (lit "File is too large. Max size is 2MB.")];
           up_read := false; up_submitted := None |})
  /\ ((file_size f <= MAX_FILE_SIZE)%N ->
      forall content, file_content f = Some content ->
      let up := handleFileUpload toLowerCase (Some f) in
      let kept := filter nonBlank (splitLines content) in
      up_read up = true
      /\ (endsWith (lit ".csv") (file_name f) = false ->
          endsWith (lit ".txt") (file_name f) = false ->
          up_submitted up = None)
      /\ (endsWith (lit ".csv") (file_name f) = false ->
          endsWith (lit ".txt") (file_name f) = true ->
          up_submitted up = capped kept)
      /\ (endsWith (lit ".csv") (file_name f) = true ->
          (forall first rest, kept = first :: rest ->
             looksLikeHeader toLowerCase first = true ->
             up_submitted up = capped rest)
          /\ (forall first rest, kept = first :: rest ->
              looksLikeHeader toLowerCase first = false ->
              up_submitted up = capped kept)
          /\ (kept = [] -> up_submitted up = None))
      /\ (forall texts, up_submitted up = Some texts ->
          1 <= length texts <= MAX_ROWS
          /\ Forall (fun l => In l (splitLines content) /\ nonBlank l = true)
               texts))
  /\ (forall content, Forall (fun l => ~ In LF l) (splitLines content))
  /\ (forall content, ~ In CR content ->
      join [LF] (splitLines content) = content).
Proof.
  split; [split; reflexivity|]. split; [|split; [|split]].
  - intros Hbig. unfold handleFileUpload.
    apply N.ltb_lt in Hbig. rewrite Hbig. reflexivity.
  - intros Hsmall content Hcontent up kept.
    assert (up = onload toLowerCase (file_name f) content) as Hup.
    { subst up. unfold handleFileUpload.
      replace (MAX_FILE_SIZE <? file_size f)%N with false
        by (symmetry; apply N.ltb_ge; exact Hsmall).
      rewrite Hcontent. reflexivity. }
    rewrite Hup. clear Hup up.
    assert (forall rows,
               fileTexts toLowerCase (file_name f) content = Some rows ->
               (forall l, In l rows -> In l kept) ->
               forall texts,
                 up_submitted (onload toLowerCase (file_name f) content)
                 = Some texts ->
                 1 <= length texts <= MAX_ROWS
                 /\ Forall (fun l => In l (splitLines content)
                                     /\ nonBlank l = true) texts) as Hrows.
    { intros rows Hf Hsub texts Ht.
      destruct (onload_submitted toLowerCase _ _ _ Hf) as [Hs _].
      rewrite Hs in Ht. apply capped_spec in Ht as [Hlen ->].
      split; [exact Hlen|]. apply Forall_forall. intros l Hl.
      apply In_firstn, Hsub in Hl. subst kept.
      apply filter_In in Hl. exact Hl. }
    destruct (endsWith (lit ".csv") (file_name f)) eqn:Hcsv.
    + destruct kept as [|first rest] eqn:Hkept.
      * destruct (onload_submitted toLowerCase (file_name f) content [])
          as [Hs Hr].
        { unfold fileTexts. rewrite Hcsv. fold kept. rewrite Hkept.
          reflexivity. }
        split; [exact Hr|]. split; [discriminate|]. split; [discriminate|].
        split.
        -- intros _. split; [discriminate|]. split; [discriminate|].
           intros _. exact Hs.
        -- intros texts Ht. rewrite Hs in Ht. discriminate.
      * destruct (onload_submitted toLowerCase (file_name f) content
                    (if looksLikeHeader toLowerCase first
                     then rest else first :: rest))
          as [Hs Hr].
        { unfold fileTexts. rewrite Hcsv. fold kept. rewrite Hkept.
          reflexivity. }
        split; [exact Hr|]. split; [discriminate|]. split; [discriminate|].
        split.
        -- intros _. split; [|split; [|discriminate]].
           ++ intros first' rest' Heq Hh. injection Heq as <- <-.
              rewrite Hs, Hh. reflexivity.
           ++ intros first' rest' Heq Hh. injection Heq as <- <-.
              rewrite Hs, Hh. reflexivity.
        -- apply (Hrows
                    (if looksLikeHeader toLowerCase first
                     then rest else first :: rest)).
           ++ unfold fileTexts. rewrite Hcsv. fold kept. rewrite Hkept.
              reflexivity.
           ++ intros l Hl. destruct (looksLikeHeader toLowerCase first);
                [right|]; exact Hl.
    + destruct (endsWith (lit ".txt") (file_name f)) eqn:Htxt.
      * destruct (onload_submitted toLowerCase (file_name f) content kept)
          as [Hs Hr].
        { unfold fileTexts. rewrite Hcsv, Htxt. reflexivity. }
        split; [exact Hr|]. split; [discriminate|].
        split; [intros _ _; exact Hs|]. split; [discriminate|].
        apply (Hrows kept); [|auto].
        unfold fileTexts. rewrite Hcsv, Htxt. reflexivity.
      * destruct (onload_unsupported toLowerCase (file_name f) content)
          as [Hs Hr].
        { unfold fileTexts. rewrite Hcsv, Htxt. reflexivity. }
        split; [exact Hr|]. split; [intros _ _; exact Hs|].
        split; [discriminate|]. split; [discriminate|].
        intros texts Ht. rewrite Hs in Ht. discriminate.
  - exact splitLines_no_LF.
  - exact join_splitLines.
Qed.

Lemma handleFileUpload_spec_witness :
  up_submitted (handleFileUpload Samples.lower (Some Samples.csvFile))
  = Some [lit "good"; lit "bad"].
Proof.
  destruct (handleFileUpload_spec Samples.lower Samples.csvFile)
    as (_ & _ & Hsmall & _).
  destruct (Hsmall ltac:(vm_compute; discriminate) _ eq_refl)
    as (_ & _ & _ & Hcsv & _).
  destruct (Hcsv eq_refl) as (Hheader & _).
  rewrite (Hheader (lit "Text,label") [lit "good"; lit "bad"]);
    reflexivity.
Defined.

(* ===================================================================== *)
(** * Part III: further properties of the code                            *)
(* ===================================================================== *)

(** ** cleanJsonString on clean input *)

Lemma includes_cons_false (p : jsstring) (c : char) (s : jsstring) :
  includes p (c :: s) = false ->
  startsWith p (c :: s) = false /\ includes p s = false.
Proof. cbn [includes]. intros H. apply orb_false_iff in H. exact H. Qed.

Lemma stripFences_without_fence (s : jsstring) :
  includes FENCE s = false -> stripFences s = s.
Proof.
  unfold stripFences. induction s as [|c rest IH]; intros H; [reflexivity|].
  apply includes_cons_false in H as [Hhead Hrest].
  cbn [stripFences_from].
  assert (fenceMatchLength (c :: rest) = 0) as ->.
  { apply fenceMatchLength_ticks.
    destruct (le_lt_dec 3 (leadingTicks (c :: rest))) as [Hge|Hlt]; [|lia].
    apply startsWith_FENCE_ticks in Hge. congruence. }
  rewrite IH by exact Hrest. reflexivity.
Qed.

Lemma trimStart_snoc_kept (x : jsstring) (c : char) :
  isWhiteSpace c = false -> trimStart (x ++ [c]) = trimStart x ++ [c].
Proof.
  intros Hc. induction x as [|d x IH]; cbn [app trimStart].
  - rewrite Hc. reflexivity.
  - destruct (isWhiteSpace d); [exact IH|reflexivity].
Qed.

Lemma trimEnd_cons_kept (c : char) (s : jsstring) :
  isWhiteSpace c = false -> trimEnd (c :: s) = c :: trimEnd s.
Proof.
  intros Hc. unfold trimEnd. cbn [rev].
  rewrite (trimStart_snoc_kept _ _ Hc), rev_app_distr. reflexivity.
Qed.

Lemma trimEnd_snoc_kept (s : jsstring) (c : char) :
  isWhiteSpace c = false -> trimEnd (s ++ [c]) = s ++ [c].
Proof.
  intros Hc. unfold trimEnd. rewrite rev_app_distr. cbn [rev app trimStart].
  rewrite Hc. cbn [rev]. rewrite rev_involutive. reflexivity.
Qed.

(** X1.  A response that is already a bare array, from its opening bracket
    to its closing bracket, and holds no code fence is returned unchanged. *)
Theorem cleanJsonString_bare_array (mid : jsstring) :
  includes FENCE (LBRACKET :: mid ++ [RBRACKET]) = false ->
  cleanJsonString (LBRACKET :: mid ++ [RBRACKET])
  = LBRACKET :: mid ++ [RBRACKET].
Proof.
  intros Hno.
  apply (cleanJsonString_brackets _ [] mid []); try (intros []).
  rewrite (stripFences_without_fence _ Hno). unfold trim.
  cbn [trimStart]. change (isWhiteSpace LBRACKET) with false. cbn iota.
  change (LBRACKET :: mid ++ [RBRACKET])
    with ((LBRACKET :: mid) ++ [RBRACKET]).
  apply trimEnd_snoc_kept. reflexivity.
Qed.

Lemma cleanJsonString_bare_array_witness :
  cleanJsonString (lit "[1, 2]") = lit "[1, 2]".
Proof.
  apply (cleanJsonString_bare_array (lit "1, 2")). reflexivity.
Defined.

Lemma includes_tail (p : jsstring) (c : char) (s : jsstring) :
  includes p (c :: s) = false -> includes p s = false.
Proof. intros H. apply includes_cons_false in H. apply H. Qed.

Lemma includes_skipn (p s : jsstring) (n : nat) :
  includes p s = false -> includes p (skipn n s) = false.
Proof.
  revert s; induction n as [|n IH]; intros s H; [exact H|].
  destruct s as [|c s]; [exact H|]. cbn [skipn].
  apply IH. exact (includes_tail _ _ _ H).
Qed.

Lemma startsWith_firstn (p s : jsstring) (n : nat) :
  startsWith p (firstn n s) = true -> startsWith p s = true.
Proof.
  revert s n; induction p as [|a p IH]; intros s n H; [reflexivity|].
  destruct n as [|n]; [discriminate|].
  destruct s as [|b s]; [discriminate|].
  cbn [firstn startsWith] in *. apply andb_true_iff in H as [Hab H].
  rewrite Hab. cbn [andb]. exact (IH _ _ H).
Qed.

Lemma includes_firstn (p s : jsstring) (n : nat) :
  p <> [] -> includes p s = false -> includes p (firstn n s) = false.
Proof.
  intros Hp. revert n; induction s as [|c s IH]; intros n H.
  - rewrite firstn_nil. exact H.
  - destruct n as [|n].
    + destruct p; [congruence|reflexivity].
    + apply includes_cons_false in H as [Hhead Hrest].
      cbn [firstn includes]. rewrite (IH n Hrest), orb_false_r.
      destruct (startsWith p (c :: firstn n s)) eqn:Hs; [|reflexivity].
      apply (startsWith_firstn p (c :: s) (S n)) in Hs. congruence.
Qed.

Lemma trimStart_is_skipn (s : jsstring) :
  exists k, trimStart s = skipn k s.
Proof.
  induction s as [|c s [k Hk]]; [exists 0; reflexivity|].
  cbn [trimStart]. destruct (isWhiteSpace c).
  - exists (S k). exact Hk.
  - exists 0. reflexivity.
Qed.

Lemma trimEnd_is_firstn (s : jsstring) :
  exists k, trimEnd s = firstn k s.
Proof.
  unfold trimEnd. destruct (trimStart_is_skipn (rev s)) as [k ->].
  exists (length s - k). rewrite skipn_rev, rev_involutive. reflexivity.
Qed.

Lemma FENCE_nonempty : FENCE <> [].
Proof. discriminate. Qed.

(** X2.  The cleaned text never contains a code fence, whatever the
    response. *)
Theorem cleanJsonString_without_fence (str : jsstring) :
  includes FENCE (cleanJsonString str) = false.
Proof.
  assert (includes FENCE (trim (stripFences str)) = false) as Htrim.
  { unfold trim.
    destruct (trimEnd_is_firstn (trimStart (stripFences str))) as [k ->].
    apply includes_firstn; [exact FENCE_nonempty|].
    destruct (trimStart_is_skipn (stripFences str)) as [j ->].
    apply includes_skipn, stripFences_from_no_fence. }
  unfold cleanJsonString.
  destruct (negb _ && negb _); [|exact Htrim].
  unfold substring.
  apply includes_firstn; [exact FENCE_nonempty|].
  apply includes_skipn. exact Htrim.
Qed.

(** ** The service: the successful path and the normaliser *)

Lemma mapM_normalizeItem_each (items : list json) :
  Forall (fun item => item <> JNull) items ->
  exists rs,
    mapM normalizeItem items = Normal rs
    /\ Forall2 (fun item r => normalizeItem item = Normal r) items rs.
Proof.
  induction 1 as [|item items Hnn _ (rs & Hrs & Hall)].
  - exists []. split; [reflexivity|constructor].
  - destruct (normalizeItem_returns item Hnn) as (r & Hr).
    exists (r :: rs). cbn [mapM]. rewrite Hr, Hrs. cbn [bind].
    split; [reflexivity|]. constructor; assumption.
Qed.

(** X3.  When the remote call returns a response with a candidate whose
    cleaned text parses to an array without [null] elements, the call
    resolves to one normalised record per array element, in order, whatever
    the number of texts that were sent, and exactly one request is made. *)
Theorem analyzeSentimentBatch_resolves
  (JSON_parse : jsstring -> option json) (generateContent : Request -> ApiReply)
  (texts : list jsstring) (key : jsstring) (c : json) (cs : list json)
  (jsonText : jsstring) (items : list json) :
  key <> [] -> texts <> [] -> jsonText <> [] ->
  generateContent {| req_apiKey := key; req_texts := texts |}
  = ApiReturns {| candidates := Some (c :: cs);
                  response_text := Some jsonText |} ->
  JSON_parse (cleanJsonString jsonText) = Some (JArray items) ->
  Forall (fun item => item <> JNull) items ->
  exists rs,
    analyzeSentimentBatch JSON_parse generateContent texts key
    = {| sr_outcome := Resolved rs;
         sr_requests := [{| req_apiKey := key; req_texts := texts |}] |}
    /\ Forall2 (fun item r => normalizeItem item = Normal r) items rs
    /\ length rs = length items.
Proof.
  intros Hk Ht Hj Hg Hp Hitems.
  destruct (mapM_normalizeItem_each items Hitems) as (rs & Hrs & Hall).
  exists rs. split; [|split; [exact Hall|]].
  - unfold analyzeSentimentBatch, tryBlock.
    destruct key; [congruence|]. destruct texts; [congruence|].
    rewrite Hg. unfold processResponse. cbn [candidates response_text].
    destruct jsonText; [congruence|]. rewrite Hp, Hrs. reflexivity.
  - symmetry. eapply Forall2_length. exact Hall.
Qed.

Lemma analyzeSentimentBatch_resolves_witness :
  exists rs,
    analyzeSentimentBatch MoreSamples.parse
      (fun _ => Samples.respond MoreSamples.plainArray)
      (Samples.texts 3) Samples.key
    = {| sr_outcome := Resolved rs;
         sr_requests :=
           [{| req_apiKey := Samples.key; req_texts := Samples.texts 3 |}] |}
    /\ length rs = 1.
Proof.
  destruct (analyzeSentimentBatch_resolves MoreSamples.parse
              (fun _ => Samples.respond MoreSamples.plainArray)
              (Samples.texts 3) Samples.key (JObject []) []
              MoreSamples.plainArray [MoreSamples.positiveItem])
    as (rs & Hrs & _ & Hlen); try (vm_compute; discriminate);
    try reflexivity.
  - repeat constructor. discriminate.
  - exists rs. split; assumption.
Defined.

Lemma truthy_orDefault (v : option json) (d : json) :
  truthy (Some d) = true -> truthy (Some (orDefault v d)) = true.
Proof.
  intros Hd. unfold orDefault. destruct v as [x|]; [|exact Hd].
  destruct (truthy (Some x)) eqn:Hx; [exact Hx|exact Hd].
Qed.

Lemma orDefault_truthy (x d : json) :
  truthy (Some x) = true -> orDefault (Some x) d = x.
Proof. intros H. unfold orDefault. rewrite H. reflexivity. Qed.

Lemma getProp_itemObject (r : NormalizedItem) :
  getProp (itemObject r) (lit "sentiment") = Normal (Some (n_sentiment r))
  /\ getProp (itemObject r) (lit "emotion") = Normal (Some (n_emotion r))
  /\ getProp (itemObject r) (lit "emotionEmoji")
     = Normal (Some (n_emotionEmoji r))
  /\ getProp (itemObject r) (lit "isSarcastic")
     = Normal (Some (JBool (n_isSarcastic r)))
  /\ getProp (itemObject r) (lit "confidence")
     = Normal (Some (JNumber (n_confidence r)))
  /\ getProp (itemObject r) (lit "keywords")
     = Normal (Some (JArray (n_keywords r)))
  /\ getProp (itemObject r) (lit "explanation")
     = Normal (Some (n_explanation r)).
Proof. repeat split; reflexivity. Qed.

(** An object whose four defaulted fields are truthy normalises to
    itself. *)
Lemma normalizeItem_itemObject (r : NormalizedItem) :
  truthy (Some (n_sentiment r)) = true ->
  truthy (Some (n_emotion r)) = true ->
  truthy (Some (n_emotionEmoji r)) = true ->
  truthy (Some (n_explanation r)) = true ->
  normalizeItem (itemObject r) = Normal r.
Proof.
  intros Hs He Hm Hx.
  destruct (getProp_itemObject r) as (P1 & P2 & P3 & P4 & P5 & P6 & P7).
  unfold normalizeItem. rewrite P1, P2, P3, P4, P5, P6, P7. cbn [bind].
  rewrite !orDefault_truthy by assumption.
  destruct r; reflexivity.
Qed.

(** X4.  Normalising is idempotent: the record that the normaliser returns,
    seen as an object, normalises to itself. *)
Theorem normalizeItem_idempotent (item : json) (r : NormalizedItem) :
  normalizeItem item = Normal r ->
  normalizeItem (itemObject r) = Normal r.
Proof.
  intros Hr.
  assert (item <> JNull) as Hnn by (intros ->; discriminate Hr).
  unfold normalizeItem in Hr.
  rewrite !(getProp_non_null _ _ Hnn) in Hr. cbn [bind] in Hr.
  injection Hr as <-.
  apply normalizeItem_itemObject;
    cbn [n_sentiment n_emotion n_emotionEmoji n_explanation];
    apply truthy_orDefault; reflexivity.
Qed.

Lemma normalizeItem_idempotent_witness :
  normalizeItem
    (itemObject
       {| n_sentiment := JString (lit "Mixed");
          n_emotion := JString (lit "Neutral");
          n_emotionEmoji := JString DEFAULT_EMOJI;
          n_isSarcastic := false;
          n_confidence := HALF;
          n_keywords := [];
          n_explanation := JString (lit "No explanation provided.") |})
  = Normal
      {| n_sentiment := JString (lit "Mixed");
         n_emotion := JString (lit "Neutral");
         n_emotionEmoji := JString DEFAULT_EMOJI;
         n_isSarcastic := false;
         n_confidence := HALF;
         n_keywords := [];
         n_explanation := JString (lit "No explanation provided.") |}.
Proof.
  apply (normalizeItem_idempotent Samples.mixedItem). reflexivity.
Defined.

(** ** The kinds of a rejection, by origin *)

Lemma processResponse_kinds (JSON_parse : jsstring -> option json)
  (r : GenerateContentResponse) (t : Thrown) :
  processResponse JSON_parse r = Throw t ->
  ge_code (catchHandler t) <> AUTH_ERROR
  /\ ge_code (catchHandler t) <> RATE_LIMIT
  /\ ge_code (catchHandler t) <> INVALID_REQUEST.
Proof.
  unfold processResponse.
  destruct (candidates r) as [[|c cs]|];
    try (intros [= <-]; repeat split; discriminate).
  destruct (response_text r) as [[|ch txt]|];
    try (intros [= <-]; repeat split; discriminate).
  destruct (JSON_parse (cleanJsonString (ch :: txt))) as [[]|];
    try (intros [= <-]; repeat split; discriminate).
  intros H. apply mapM_normalizeItem_throws in H. subst t.
  repeat split; vm_compute; discriminate.
Qed.

Lemma returned_response_not_auth (JSON_parse : jsstring -> option json)
  (generateContent : Request -> ApiReply) (texts : list jsstring)
  (key : jsstring) (r : GenerateContentResponse) :
  generateContent {| req_apiKey := key; req_texts := texts |}
  = ApiReturns r ->
  key <> [] ->
  isAuthRejection
    (sr_outcome (analyzeSentimentBatch JSON_parse generateContent texts key))
  = false.
Proof.
  intros Hg Hk. unfold analyzeSentimentBatch.
  destruct key; [congruence|]. destruct texts; [reflexivity|].
  cbn [sr_outcome]. unfold tryBlock. rewrite Hg.
  destruct (processResponse JSON_parse r) as [rs|t] eqn:Hp; [reflexivity|].
  destruct (processResponse_kinds _ _ _ Hp) as [Hna _].
  cbn [isAuthRejection]. destruct (ge_code (catchHandler t));
    try reflexivity. congruence.
Qed.

(** X5.  A failure thrown by the remote call is never classified
    SAFETY_BLOCK or PARSE_ERROR, and a failure on a returned response is
    never classified AUTH_ERROR, RATE_LIMIT or INVALID_REQUEST: only a
    thrown failure or a missing key can reject a call with AUTH_ERROR. *)
Theorem rejection_kinds_by_origin :
  (forall e : JsError,
      ge_code (classifyJsError e) <> SAFETY_BLOCK
      /\ ge_code (classifyJsError e) <> PARSE_ERROR)
  /\ (forall (JSON_parse : jsstring -> option json) r t,
      processResponse JSON_parse r = Throw t ->
      ge_code (catchHandler t) <> AUTH_ERROR
      /\ ge_code (catchHandler t) <> RATE_LIMIT
      /\ ge_code (catchHandler t) <> INVALID_REQUEST)
  /\ (forall (JSON_parse : jsstring -> option json) generateContent texts key
        r e,
      generateContent {| req_apiKey := key; req_texts := texts |}
      = ApiReturns r ->
      key <> [] ->
      sr_outcome (analyzeSentimentBatch JSON_parse generateContent texts key)
      = Rejected e ->
      ge_code e <> AUTH_ERROR).
Proof.
  split; [|split; [exact processResponse_kinds|]].
  - intros e. unfold classifyJsError.
    repeat match goal with
           | |- context [if ?b then _ else _] => destruct b
           end; split; discriminate.
  - intros JSON_parse generateContent texts key r e Hg Hk Ho.
    pose proof (returned_response_not_auth JSON_parse generateContent
                  texts key r Hg Hk) as Hna.
    rewrite Ho in Hna. cbn [isAuthRejection] in Hna.
    intros Hc. rewrite Hc in Hna. discriminate.
Qed.

Lemma rejection_kinds_by_origin_witness :
  ge_code
    (catchHandler (ThrowGemini safetyBlockError)) <> AUTH_ERROR.
Proof.
  destruct rejection_kinds_by_origin as (_ & Hresp & _).
  apply (Hresp Samples.parse
           {| candidates := Some []; response_text := None |}).
  reflexivity.
Defined.

(** ** The accounts of a batch *)

Lemma tally_le (f g : nat -> nat) (m : nat) :
  (forall j, j < m -> f j <= g j) -> tally f m <= tally g m.
Proof.
  induction m as [|m IH]; intros H; [reflexivity|]. cbn [tally].
  assert (tally f m <= tally g m) by (apply IH; intros; apply H; lia).
  assert (f m <= g m) by (apply H; lia). lia.
Qed.

Lemma tally_plus (f g h : nat -> nat) (m : nat) :
  (forall j, j < m -> f j + g j = h j) ->
  tally f m + tally g m = tally h m.
Proof.
  induction m as [|m IH]; intros H; [reflexivity|]. cbn [tally].
  assert (tally f m + tally g m = tally h m)
    by (apply IH; intros; apply H; lia).
  assert (f m + g m = h m) by (apply H; lia). lia.
Qed.

Lemma tally_chunk_lengths (texts : list jsstring) (m : nat) :
  tally (fun j => length (chunkAt texts j)) m
  = Nat.min (m * CHUNK_SIZE) (length texts).
Proof.
  induction m as [|m IH]; [reflexivity|]. cbn [tally].
  rewrite IH, length_chunkAt. unfold CHUNK_SIZE. lia.
Qed.

Section AccountProperties.

Variable JSON_parse : jsstring -> option json.
Variable remote : nat -> Request -> ApiReply.
Variable generateId : nat -> nat -> jsstring.
Variable Date_now : nat -> nat -> N.
Variable texts : list jsstring.
Variable key : jsstring.
Hypothesis key_present : key <> [].
Variable n0 : nat.
Variable results0 : list AnalysisResult.

Lemma processedAt_le (j : nat) :
  processedAt JSON_parse remote texts key n0 j <= length (chunkAt texts j).
Proof.
  unfold processedAt. destruct (outcomeOf _ _ _ _ _ _); lia.
Qed.

Lemma tally_processed_le (m : nat) :
  tally (processedAt JSON_parse remote texts key n0) m <= m * CHUNK_SIZE.
Proof.
  transitivity (tally (fun j => length (chunkAt texts j)) m).
  - apply tally_le. intros j _. apply processedAt_le.
  - rewrite tally_chunk_lengths. lia.
Qed.

Lemma AccountsInv_exit (i : nat) (vars : LoopVars) (run : Run) :
  length texts <= i ->
  AccountsInv JSON_parse remote generateId Date_now texts key n0 results0
    i vars run ->
  AccountsPost JSON_parse remote generateId Date_now texts key n0 results0
    vars run.
Proof.
  intros Hge (Hv & Hkey & m & Hi & Hacc).
  exists m. split; [exact Hacc|]. left. repeat split; try assumption.
  subst i. apply chunkCount_spec. exact Hge.
Qed.

Lemma AccountsInv_body (i : nat) (vars : LoopVars) (run : Run) :
  i < length texts ->
  AccountsInv JSON_parse remote generateId Date_now texts key n0 results0
    i vars run ->
  match loopBody JSON_parse remote generateId Date_now texts key
          i vars run with
  | (Continue, vars', run') =>
      AccountsInv JSON_parse remote generateId Date_now texts key n0
        results0 (i + CHUNK_SIZE) vars' run'
  | (Break, vars', run') =>
      AccountsPost JSON_parse remote generateId Date_now texts key n0
        results0 vars' run'
  end.
Proof.
  intros Hlt (-> & Hkey & m & Hi & Hm & Hlen & Htot & Hp & He & Hres & Herr).
  pose proof (loopBody_cases JSON_parse remote generateId Date_now texts key
                key_present i run Hlt) as Hc.
  cbv zeta in Hc.
  assert (slice texts i (i + CHUNK_SIZE) = chunkAt texts m) as Hchunk
    by (subst i; reflexivity).
  assert (m < chunkCount texts) as Hm' by (apply chunkCount_lt; lia).
  assert (i + length (chunkAt texts m) <= length texts) as Hcl
    by (rewrite length_chunkAt; lia).
  pose proof (tally_processed_le m) as Hple.
  rewrite Hlen, Hchunk in Hc.
  change (sr_outcome
            (analyzeSentimentBatch JSON_parse (remote (n0 + m))
               (chunkAt texts m) key))
    with (outcomeOf JSON_parse remote n0 key texts m) in Hc.
  destruct (outcomeOf JSON_parse remote n0 key texts m) as [rs|e] eqn:Ho.
  - rewrite Hc. split; [reflexivity|]. split; [exact Hkey|].
    exists (S m). split; [subst i; lia|].
    unfold Accounts.
    cbn [cur step setBatchProgress setResults sendRequests network
         batchProgress markProcessed total processed errors results
         errorDetails tally collected].
    unfold processedAt at 2, failedAt at 2, resultsAt. rewrite Ho.
    split; [lia|]. split; [rewrite length_app, Hlen; cbn [length]; lia|].
    split; [exact Htot|]. split; [rewrite Hp, Htot; lia|].
    split; [rewrite He; lia|]. split; [|exact Herr].
    rewrite Hres, <- app_assoc. subst i. reflexivity.
  - destruct (ErrorCode_eqb (ge_code e) AUTH_ERROR) eqn:Hauth.
    + rewrite Hc. exists (S m). split.
      * unfold Accounts.
        cbn [cur step setApiKey setIsApiKeyModalOpen sendRequests network
             batchProgress results errorDetails tally collected].
        unfold processedAt at 2, failedAt at 2, resultsAt.
        rewrite Ho, Hauth.
        split; [lia|].
        split; [rewrite length_app, Hlen; cbn [length]; lia|].
        split; [exact Htot|]. split; [rewrite Hp; lia|].
        split; [rewrite He; lia|]. split; [exact Hres|exact Herr].
      * right. exists m, e.
        split; [reflexivity|]. split; [exact Ho|].
        split; [|split; reflexivity].
        destruct (ge_code e); try discriminate. reflexivity.
    + rewrite Hc. split; [reflexivity|]. split; [exact Hkey|].
      exists (S m). split; [subst i; lia|].
      unfold Accounts.
      cbn [cur step setBatchProgress showToast sendRequests network
           batchProgress markErrors total processed errors results
           errorDetails tally collected].
      unfold processedAt at 2, failedAt at 2, resultsAt.
      rewrite Ho, Hauth.
      split; [lia|].
      split; [rewrite length_app, Hlen; cbn [length]; lia|].
      split; [exact Htot|]. split; [rewrite Hp; lia|].
      split; [rewrite He; lia|]. split; [exact Hres|exact Herr].
Qed.

End AccountProperties.

Lemma In_skipn {A : Type} (n : nat) (l : list A) (x : A) :
  In x (skipn n l) -> In x l.
Proof.
  intros H. rewrite <- (firstn_skipn n l). apply in_or_app. right. exact H.
Qed.

Lemma In_chunkAt (texts : list jsstring) (j : nat) (t : jsstring) :
  In t (chunkAt texts j) -> In t texts.
Proof.
  unfold chunkAt, slice. intros H. apply In_firstn, In_skipn in H. exact H.
Qed.

Lemma newResults_textFrom (generateId : nat -> nat -> jsstring)
  (Date_now : nat -> nat -> N) (i : nat) (chunk : list jsstring)
  (rs : list NormalizedItem) :
  Forall (textFrom chunk) (newResults generateId Date_now i chunk rs).
Proof.
  unfold newResults, mapi. generalize 0 as idx.
  induction rs as [|r rs IH]; intros idx; cbn [mapi_from]; constructor.
  - unfold textFrom. cbn [text].
    destruct (nth_error chunk idx) as [t|] eqn:Hn; [right|left; reflexivity].
    exists t. split; [reflexivity|]. eapply nth_error_In. exact Hn.
  - apply IH.
Qed.

Lemma collected_textFrom (JSON_parse : jsstring -> option json)
  (remote : nat -> Request -> ApiReply) (generateId : nat -> nat -> jsstring)
  (Date_now : nat -> nat -> N) (texts : list jsstring) (key : jsstring)
  (n0 m : nat) :
  Forall (textFrom texts)
    (collected JSON_parse remote generateId Date_now texts key n0 m).
Proof.
  induction m as [|m IH]; [constructor|]. cbn [collected].
  apply Forall_app. split; [|exact IH]. unfold resultsAt.
  destruct (outcomeOf _ _ _ _ _ _); [|constructor].
  eapply Forall_impl; [|apply newResults_textFrom].
  intros r [H|(t & Ht & Hin)]; [left; exact H|right].
  exists t. split; [exact Ht|]. eapply In_chunkAt. exact Hin.
Qed.

(** The state at the end of a cycle, against the state at the end of the
    loop. *)
Lemma final_state_frame (texts : list jsstring) (captured : nat)
  (vars : LoopVars) (run : Run) :
  let final := cur (finallyBlock (postLoop texts captured vars run)) in
  network final = network (cur run)
  /\ apiKey final = apiKey (cur run)
  /\ results final = results (cur run)
  /\ total (batchProgress final) = total (batchProgress (cur run))
  /\ processed (batchProgress final) = processed (batchProgress (cur run))
  /\ errors (batchProgress final) = errors (batchProgress (cur run))
  /\ isProcessing final = false
  /\ bp_isProcessing (batchProgress final) = false.
Proof.
  unfold finallyBlock, postLoop.
  destruct (criticalError vars) as [ce|]; [repeat split|].
  destruct (authErrorOccurred vars); [repeat split|].
  destruct ((_ =? 0)%Z && _); [repeat split|].
  destruct (0 <? _)%Z; repeat split.
Qed.

(** What the code after the loop reports when no authentication error
    occurred: it compares the number of texts with the error counter that
    the callback captured. *)
Lemma final_report_idle (texts : list jsstring) (captured : nat) (run : Run) :
  errorDetails (cur run) = None ->
  let final := cur (finallyBlock (postLoop texts captured idleVars run)) in
  (captured < length texts ->
   toast final
   = Some {| toast_msg := lit "Analysis Cycle Complete!";
             toast_type := success |}
   /\ errorDetails final = None)
  /\ (captured = length texts -> 0 < length texts ->
      errorDetails final = Some allFailedDetails
      /\ toast final = toast (cur run)).
Proof.
  intros Herr. unfold finallyBlock, postLoop.
  cbn [criticalError authErrorOccurred idleVars]. split.
  - intros Hlt.
    destruct (Z.eqb_spec (Z.of_nat (length texts) - Z.of_nat captured) 0)
      as [E|_]; [lia|]. cbn [andb].
    destruct (Z.ltb_spec 0 (Z.of_nat (length texts) - Z.of_nat captured))
      as [_|E]; [|lia].
    split; [reflexivity|exact Herr].
  - intros Heq Hpos.
    destruct (Z.eqb_spec (Z.of_nat (length texts) - Z.of_nat captured) 0)
      as [_|E]; [|lia].
    destruct (Nat.ltb_spec 0 (length texts)) as [_|E]; [|lia].
    cbn [andb]. split; reflexivity.
Qed.

Section FullRuns.

Variable JSON_parse : jsstring -> option json.
Variable remote : nat -> Request -> ApiReply.
Variable generateId : nat -> nat -> jsstring.
Variable Date_now : nat -> nat -> N.
Variable texts : list jsstring.
Variable s : AppState.
Hypothesis key_present : apiKey s <> [].

(** [processBatch] returns, and the loop ends in both postconditions. *)
Lemma processBatch_accounts :
  exists vars run,
    processBatch JSON_parse remote generateId Date_now texts s
    = Some (finallyBlock
              (postLoop texts (errors (batchProgress s)) vars run))
    /\ LoopPost JSON_parse remote texts (apiKey s) (network s)
         (past (beginBatch texts s)) vars run
    /\ AccountsPost JSON_parse remote generateId Date_now texts (apiKey s)
         (length (network s)) (results s) vars run.
Proof.
  destruct (chunkLoop_rule JSON_parse remote generateId Date_now texts
              (apiKey s)
              (fun i vars run =>
                 LoopInv JSON_parse remote texts (apiKey s) (network s)
                   (past (beginBatch texts s)) i vars run
                 /\ AccountsInv JSON_parse remote generateId Date_now texts
                      (apiKey s) (length (network s)) (results s)
                      i vars run)
              (fun vars run =>
                 LoopPost JSON_parse remote texts (apiKey s) (network s)
                   (past (beginBatch texts s)) vars run
                 /\ AccountsPost JSON_parse remote generateId Date_now texts
                      (apiKey s) (length (network s)) (results s) vars run))
    with (fuel := length texts) (i := 0) (vars := idleVars)
         (run := beginBatch texts s)
    as (vars & run & Hloop & Hpost).
  - intros i vars run Hge [H1 H2]. split.
    + eapply LoopInv_exit; eassumption.
    + eapply AccountsInv_exit; eassumption.
  - intros i vars run Hlt [H1 H2].
    pose proof (LoopInv_body JSON_parse remote generateId Date_now texts
                  (apiKey s) key_present (network s)
                  (past (beginBatch texts s)) i vars run Hlt H1) as B1.
    pose proof (AccountsInv_body JSON_parse remote generateId Date_now texts
                  (apiKey s) key_present (length (network s)) (results s)
                  i vars run Hlt H2) as B2.
    destruct (loopBody JSON_parse remote generateId Date_now texts
                (apiKey s) i vars run) as [[[|] vars'] run'];
      split; assumption.
  - lia.
  - split.
    + split; [reflexivity|]. exists 0, [].
      repeat split; try reflexivity; try lia.
      * cbn. rewrite app_nil_r. reflexivity.
      * intros j Hj. lia.
      * constructor; [|constructor]. unfold progressBounded. cbn. lia.
    + split; [reflexivity|]. split; [reflexivity|]. exists 0.
      split; [reflexivity|]. unfold Accounts. cbn.
      repeat split; try reflexivity; lia.
  - exists vars, run. split; [|exact Hpost].
    unfold processBatch. destruct (apiKey s) eqn:Hk; [congruence|].
    fold idleVars. rewrite Hloop. reflexivity.
Qed.

End FullRuns.

Lemma accounts_without_auth (JSON_parse : jsstring -> option json)
  (remote : nat -> Request -> ApiReply) (generateId : nat -> nat -> jsstring)
  (Date_now : nat -> nat -> N) (texts : list jsstring) (key : jsstring)
  (net0 : list Request) (results0 : list AnalysisResult)
  (vars : LoopVars) (run : Run) :
  AccountsPost JSON_parse remote generateId Date_now texts key (length net0)
    results0 vars run ->
  noAuthBefore JSON_parse remote texts key net0 (chunkCount texts) ->
  vars = idleVars
  /\ apiKey (cur run) = key
  /\ Accounts JSON_parse remote generateId Date_now texts key (length net0)
       results0 (chunkCount texts) (cur run).
Proof.
  intros (m & Hacc & Hcase) Hno.
  pose proof Hacc as (Hm & _).
  destruct Hcase as [(Hv & Hk & Hge) | (k & e & -> & Ho & Hauth & _)].
  - assert (m = chunkCount texts) as -> by lia.
    split; [exact Hv|]. split; [exact Hk|exact Hacc].
  - specialize (Hno k ltac:(lia)).
    rewrite Ho, (isAuthRejection_auth e Hauth) in Hno. discriminate.
Qed.

Lemma tally_split_without_auth (JSON_parse : jsstring -> option json)
  (remote : nat -> Request -> ApiReply) (texts : list jsstring)
  (key : jsstring) (net0 : list Request) (m : nat) :
  noAuthBefore JSON_parse remote texts key net0 m ->
  tally (processedAt JSON_parse remote texts key (length net0)) m
  + tally (failedAt JSON_parse remote texts key (length net0)) m
  = Nat.min (m * CHUNK_SIZE) (length texts).
Proof.
  intros Hno. rewrite <- tally_chunk_lengths. apply tally_plus.
  intros j Hj. specialize (Hno j Hj). unfold processedAt, failedAt.
  destruct (outcomeOf _ _ _ _ _ _) as [rs|e]; [lia|].
  cbn [isAuthRejection] in Hno. rewrite Hno. lia.
Qed.

(** X6.  A batch counts every text of a submitted group once: [processed]
    ends as the number of texts in the groups that resolved, [errors] as the
    number in the groups rejected for another reason than authentication,
    [total] as the number of texts, and the cycle ends with both processing
    flags off.  When no group is rejected for authentication all groups are
    submitted and [processed + errors = total]. *)
Theorem batch_counts_each_text_once
  (JSON_parse : jsstring -> option json) (remote : nat -> Request -> ApiReply)
  (generateId : nat -> nat -> jsstring) (Date_now : nat -> nat -> N)
  (texts : list jsstring) (s : AppState) :
  apiKey s <> [] ->
  exists run m,
    processBatch JSON_parse remote generateId Date_now texts s = Some run
    /\ m <= chunkCount texts
    /\ length (network (cur run)) = length (network s) + m
    /\ total (batchProgress (cur run)) = length texts
    /\ processed (batchProgress (cur run))
       = tally (processedAt JSON_parse remote texts (apiKey s)
                  (length (network s))) m
    /\ errors (batchProgress (cur run))
       = tally (failedAt JSON_parse remote texts (apiKey s)
                  (length (network s))) m
    /\ isProcessing (cur run) = false
    /\ bp_isProcessing (batchProgress (cur run)) = false
    /\ (noAuthBefore JSON_parse remote texts (apiKey s) (network s)
          (chunkCount texts) ->
        m = chunkCount texts
        /\ processed (batchProgress (cur run))
           + errors (batchProgress (cur run)) = length texts).
Proof.
  intros Hkey.
  destruct (processBatch_accounts JSON_parse remote generateId Date_now
              texts s Hkey) as (vars & run & Hrun & _ & Hpost).
  destruct (final_state_frame texts (errors (batchProgress s)) vars run)
    as (Fn & _ & _ & Ft & Fp & Fe & Fi & Fb).
  cbv zeta in *.
  pose proof Hpost as (m & (Hm & Hlen & Htot & Hp & He & _) & Hcase).
  eexists _, m. split; [exact Hrun|].
  rewrite Fn, Ft, Fp, Fe, Fi, Fb.
  repeat (split; [assumption || reflexivity|]).
  intros Hno.
  destruct (accounts_without_auth _ _ _ _ _ _ _ _ _ _ Hpost Hno)
    as (_ & _ & _ & _ & _ & Hp' & He' & _).
  assert (m = chunkCount texts) as ->.
  { destruct Hcase as [(_ & _ & Hge) | (k & e & -> & Ho & Hauth & _)];
      [lia|].
    specialize (Hno k ltac:(lia)).
    rewrite Ho, (isAuthRejection_auth e Hauth) in Hno. discriminate. }
  split; [reflexivity|].
  rewrite Hp, He, (tally_split_without_auth _ _ _ _ _ _ Hno).
  assert (length texts <= chunkCount texts * CHUNK_SIZE)
    by (apply chunkCount_spec; lia).
  lia.
Qed.

Lemma batch_counts_each_text_once_witness :
  exists run,
    processBatch Samples.parse
      (fun n _ => if n =? 1 then MoreSamples.quota
                  else Samples.respond (lit "[1]"))
      Samples.ids Samples.clock (Samples.texts 20) Samples.idle
    = Some run
    /\ processed (batchProgress (cur run)) = 12
    /\ errors (batchProgress (cur run)) = 8.
Proof.
  destruct (batch_counts_each_text_once Samples.parse
              (fun n _ => if n =? 1 then MoreSamples.quota
                          else Samples.respond (lit "[1]"))
              Samples.ids Samples.clock (Samples.texts 20) Samples.idle)
    as (run & m & Hrun & _ & _ & _ & Hp & He & _ & _ & Hall).
  - vm_compute. discriminate.
  - destruct Hall as [-> _].
    + intros j Hj. change (chunkCount (Samples.texts 20)) with 3 in Hj.
      destruct j as [|[|[|j]]]; try lia; reflexivity.
    + exists run. split; [exact Hrun|]. rewrite Hp, He.
      split; reflexivity.
Defined.

(** X7.  A batch whose remote calls settle never removes or reorders the
    results it finds: [processBatch] only puts new results in front of them,
    and the text of every new result is a text of the batch, or is missing
    when the service returned more records than the group had texts. *)
Theorem batch_only_prepends_results
  (JSON_parse : jsstring -> option json) (remote : nat -> Request -> ApiReply)
  (generateId : nat -> nat -> jsstring) (Date_now : nat -> nat -> N)
  (texts : list jsstring) (s : AppState) :
  exists run added,
    processBatch JSON_parse remote generateId Date_now texts s = Some run
    /\ results (cur run) = added ++ results s
    /\ Forall (textFrom texts) added.
Proof.
  destruct (apiKey s) as [|c key] eqn:Hk.
  - exists (step (setIsApiKeyModalOpen true) (start s)), [].
    unfold processBatch. rewrite Hk. repeat split. constructor.
  - assert (apiKey s <> []) as Hkey by (rewrite Hk; discriminate).
    destruct (processBatch_accounts JSON_parse remote generateId Date_now
                texts s Hkey)
      as (vars & run & Hrun & _ & m & (_ & _ & _ & _ & _ & Hres & _) & _).
    destruct (final_state_frame texts (errors (batchProgress s)) vars run)
      as (_ & _ & Fr & _).
    cbv zeta in Fr.
    eexists _, _. split; [exact Hrun|]. rewrite Fr. split; [exact Hres|].
    apply collected_textFrom.
Qed.

(** X8.  When no group is rejected for authentication, what the end of the
    cycle reports does not depend on the outcome of the groups: it compares
    the number of texts with the error counter of the cycle before.  With
    fewer earlier errors than texts the cycle ends on the success toast and
    an empty error panel, also when every group failed; with as many earlier
    errors as texts it ends on the panel that says all items failed, also
    when every group succeeded. *)
Theorem batch_report_uses_earlier_errors
  (JSON_parse : jsstring -> option json) (remote : nat -> Request -> ApiReply)
  (generateId : nat -> nat -> jsstring) (Date_now : nat -> nat -> N)
  (texts : list jsstring) (s : AppState) :
  apiKey s <> [] ->
  noAuthBefore JSON_parse remote texts (apiKey s) (network s)
    (chunkCount texts) ->
  exists run,
    processBatch JSON_parse remote generateId Date_now texts s = Some run
    /\ (errors (batchProgress s) < length texts ->
        toast (cur run)
        = Some {| toast_msg := lit "Analysis Cycle Complete!";
                  toast_type := success |}
        /\ errorDetails (cur run) = None)
    /\ (errors (batchProgress s) = length texts -> 0 < length texts ->
        errorDetails (cur run) = Some allFailedDetails).
Proof.
  intros Hkey Hno.
  destruct (processBatch_accounts JSON_parse remote generateId Date_now
              texts s Hkey) as (vars & run & Hrun & _ & Hpost).
  destruct (accounts_without_auth _ _ _ _ _ _ _ _ _ _ Hpost Hno)
    as (-> & _ & _ & _ & _ & _ & _ & _ & Herr).
  destruct (final_report_idle texts (errors (batchProgress s)) run Herr)
    as [Hlt Heq].
  cbv zeta in *.
  eexists. split; [exact Hrun|]. split; [exact Hlt|].
  intros H1 H2. apply (Heq H1 H2).
Qed.

Lemma batch_report_uses_earlier_errors_witness :
  exists run,
    processBatch Samples.parse (fun _ _ => MoreSamples.quota)
      Samples.ids Samples.clock (Samples.texts 8) Samples.idle
    = Some run
    /\ errors (batchProgress (cur run)) = 8
    /\ toast (cur run)
       = Some {| toast_msg := lit "Analysis Cycle Complete!";
                 toast_type := success |}
    /\ errorDetails (cur run) = None.
Proof.
  destruct (batch_report_uses_earlier_errors Samples.parse
              (fun _ _ => MoreSamples.quota)
              Samples.ids Samples.clock (Samples.texts 8) Samples.idle)
    as (run & Hrun & Hlt & _).
  - vm_compute. discriminate.
  - intros j Hj. change (chunkCount (Samples.texts 8)) with 1 in Hj.
    assert (j = 0) as -> by lia. reflexivity.
  - exists run. split; [exact Hrun|].
    destruct Hlt as [Ht He]; [vm_compute; lia|].
    split; [|split; assumption].
    assert (Some run
            = processBatch Samples.parse (fun _ _ => MoreSamples.quota)
                Samples.ids Samples.clock (Samples.texts 8) Samples.idle)
      as E by (symmetry; exact Hrun).
    vm_compute in E. injection E as ->. reflexivity.
Defined.

(** X9.  A batch whose remote calls all return a response, whatever the
    response, is never halted: every group is submitted, in order, and the
    credential is kept. *)
Theorem returned_responses_never_halt
  (JSON_parse : jsstring -> option json) (remote : nat -> Request -> ApiReply)
  (generateId : nat -> nat -> jsstring) (Date_now : nat -> nat -> N)
  (texts : list jsstring) (s : AppState) :
  apiKey s <> [] ->
  (forall n req, exists r, remote n req = ApiReturns r) ->
  exists run,
    processBatch JSON_parse remote generateId Date_now texts s = Some run
    /\ network (cur run)
       = network s ++ requestsUpTo (apiKey s) texts (chunkCount texts)
    /\ apiKey (cur run) = apiKey s
    /\ processed (batchProgress (cur run))
       + errors (batchProgress (cur run)) = length texts.
Proof.
  intros Hkey Hret.
  assert (noAuthBefore JSON_parse remote texts (apiKey s) (network s)
            (chunkCount texts)) as Hno.
  { intros j _. unfold outcomeOf.
    destruct (Hret (length (network s) + j)
                {| req_apiKey := apiKey s; req_texts := chunkAt texts j |})
      as [r Hr].
    exact (returned_response_not_auth JSON_parse _ _ _ r Hr Hkey). }
  destruct (processBatch_accounts JSON_parse remote generateId Date_now
              texts s Hkey)
    as (vars & run & Hrun & (m & added & Hnet & _ & _ & Hcase) & Hpost).
  destruct (accounts_without_auth _ _ _ _ _ _ _ _ _ _ Hpost Hno)
    as (-> & Hk & _ & _ & _ & Hp & He & _).
  destruct (final_state_frame texts (errors (batchProgress s)) idleVars run)
    as (Fn & Fk & _ & _ & Fp & Fe & _).
  cbv zeta in *.
  eexists. split; [exact Hrun|]. rewrite Fn, Fk, Fp, Fe.
  split; [|split; [exact Hk|]].
  - rewrite Hnet.
    destruct Hcase as [(_ & -> & _) | (k & e & before & _ & _ & _ & _ & _
                                        & Hv & _)];
      [reflexivity|discriminate Hv].
  - rewrite Hp, He, (tally_split_without_auth _ _ _ _ _ _ Hno).
    assert (length texts <= chunkCount texts * CHUNK_SIZE)
      by (apply chunkCount_spec; lia).
    lia.
Qed.

Lemma returned_responses_never_halt_witness :
  exists run,
    processBatch Samples.parse (fun _ _ => Samples.respond (lit "not json"))
      Samples.ids Samples.clock (Samples.texts 9) Samples.idle
    = Some run
    /\ apiKey (cur run) = Samples.key
    /\ length (network (cur run)) = 2.
Proof.
  destruct (returned_responses_never_halt Samples.parse
              (fun _ _ => Samples.respond (lit "not json"))
              Samples.ids Samples.clock (Samples.texts 9) Samples.idle)
    as (run & Hrun & Hnet & Hk & _).
  - vm_compute. discriminate.
  - intros n req. eexists. reflexivity.
  - exists run. split; [exact Hrun|]. split; [exact Hk|].
    rewrite Hnet. reflexivity.
Defined.

(** ** Batches started by the handlers *)

(** The requests of a batch, with or without a credential. *)
Lemma processBatch_requests
  (JSON_parse : jsstring -> option json) (remote : nat -> Request -> ApiReply)
  (generateId : nat -> nat -> jsstring) (Date_now : nat -> nat -> N)
  (texts : list jsstring) (s : AppState) :
  exists run m,
    processBatch JSON_parse remote generateId Date_now texts s = Some run
    /\ network (cur run) = network s ++ requestsUpTo (apiKey s) texts m
    /\ m <= chunkCount texts
    /\ (apiKey s <> [] -> texts <> [] -> 1 <= m).
Proof.
  destruct (apiKey s) as [|c key] eqn:Hk.
  - exists (step (setIsApiKeyModalOpen true) (start s)), 0.
    unfold processBatch. rewrite Hk. cbn. rewrite app_nil_r.
    repeat split; try lia. congruence.
  - assert (apiKey s <> []) as Hkey by (rewrite Hk; discriminate).
    destruct (processBatch_post JSON_parse remote generateId Date_now
                texts s Hkey)
      as (vars & run & Hrun & m & added & Hnet & _ & _ & Hcase).
    destruct (final_state_frame texts (errors (batchProgress s)) vars run)
      as (Fn & _).
    cbv zeta in Fn. rewrite Hk in *.
    eexists _, m. split; [exact Hrun|]. rewrite Fn. split; [exact Hnet|].
    destruct Hcase as [(_ & -> & _) | (k & e & before & -> & Hlt & _)].
    + split; [lia|]. intros _ Ht.
      assert (0 < chunkCount texts); [|lia].
      apply chunkCount_lt. destruct texts; [congruence|cbn; lia].
    + split; lia.
Qed.

Lemma map_req_texts_requestsUpTo (key : jsstring) (texts : list jsstring)
  (m : nat) :
  map req_texts (requestsUpTo key texts m) = chunksUpTo texts m.
Proof.
  unfold requestsUpTo. rewrite map_map. cbn [req_texts]. apply map_id.
Qed.

Lemma requestsUpTo_sizes (key : jsstring) (texts : list jsstring) (m : nat) :
  Forall (fun q => req_apiKey q = key
                   /\ length (req_texts q) <= CHUNK_SIZE)
    (requestsUpTo key texts m).
Proof.
  unfold requestsUpTo, chunksUpTo. rewrite map_map. apply Forall_forall.
  intros q Hq. apply in_map_iff in Hq as (j & <- & _).
  cbn [req_apiKey req_texts]. split; [reflexivity|].
  rewrite length_chunkAt. lia.
Qed.

Lemma raiseToasts_frame (toasts : list Toast) (s : AppState) :
  network (raiseToasts toasts s) = network s
  /\ apiKey (raiseToasts toasts s) = apiKey s.
Proof.
  unfold raiseToasts. revert s.
  induction toasts as [|t toasts IH]; intros s; [split; reflexivity|].
  cbn [fold_left]. destruct (IH (showToast (toast_msg t) (toast_type t) s))
    as [Hn Hk].
  rewrite Hn, Hk. split; reflexivity.
Qed.

Lemma handleFileUpload_rows (toLowerCase : jsstring -> jsstring)
  (file : option File) (texts : list jsstring) :
  up_submitted (handleFileUpload toLowerCase file) = Some texts ->
  1 <= length texts <= MAX_ROWS.
Proof.
  unfold handleFileUpload. destruct file as [f|]; [|discriminate].
  destruct (MAX_FILE_SIZE <? file_size f)%N; [discriminate|].
  destruct (file_content f) as [content|]; [|discriminate].
  destruct (fileTexts toLowerCase (file_name f) content) as [rows|] eqn:Hf.
  - destruct (onload_submitted toLowerCase _ _ _ Hf) as [-> _].
    intros H. apply capped_spec in H. apply H.
  - destruct (onload_unsupported toLowerCase _ _ Hf) as [-> _].
    discriminate.
Qed.

(** X10.  Whatever the file and the state, an import whose remote calls
    settle sends at most 13 requests of at most 8 texts each, 100 texts at
    most in all. *)
Theorem importFile_bounds
  (JSON_parse : jsstring -> option json) (remote : nat -> Request -> ApiReply)
  (generateId : nat -> nat -> jsstring) (Date_now : nat -> nat -> N)
  (toLowerCase : jsstring -> jsstring) (file : option File) (s : AppState) :
  exists run sent,
    importFile JSON_parse remote generateId Date_now toLowerCase file s
    = Some run
    /\ network (cur run) = network s ++ sent
    /\ length sent <= 13
    /\ Forall (fun q => length (req_texts q) <= CHUNK_SIZE) sent
    /\ length (concat (map req_texts sent)) <= MAX_ROWS.
Proof.
  unfold importFile.
  destruct (raiseToasts_frame
              (up_toasts (handleFileUpload toLowerCase file)) s)
    as [Hn Hk].
  destruct (up_submitted (handleFileUpload toLowerCase file))
    as [texts|] eqn:Hsub.
  - apply handleFileUpload_rows in Hsub.
    destruct (processBatch_requests JSON_parse remote generateId Date_now
                texts
                (raiseToasts (up_toasts (handleFileUpload toLowerCase file))
                   s))
      as (run & m & Hrun & Hnet & Hm & _).
    exists run, (requestsUpTo (apiKey s) texts m).
    split; [exact Hrun|]. rewrite Hnet, Hn, Hk. split; [reflexivity|].
    assert (chunkCount texts <= 13) as Hcc
      by (apply chunkCount_spec; unfold MAX_ROWS, CHUNK_SIZE in *; lia).
    split; [rewrite length_requestsUpTo; lia|]. split.
    + eapply Forall_impl; [|apply requestsUpTo_sizes].
      intros q [_ H]. exact H.
    + rewrite map_req_texts_requestsUpTo, concat_chunksUpTo, length_firstn.
      lia.
  - eexists _, []. split; [reflexivity|]. cbn [start cur].
    rewrite Hn, app_nil_r. repeat split; try constructor; cbn; lia.
Qed.

(** ** handleSingleAnalyze *)

Lemma trimStart_head (s : jsstring) :
  trimStart s = []
  \/ exists c t, trimStart s = c :: t /\ isWhiteSpace c = false.
Proof.
  induction s as [|c s IH]; [left; reflexivity|]. cbn [trimStart].
  destruct (isWhiteSpace c) eqn:Hc; [exact IH|].
  right. exists c, s. split; [reflexivity|exact Hc].
Qed.

Lemma trimStart_idempotent (s : jsstring) :
  trimStart (trimStart s) = trimStart s.
Proof.
  destruct (trimStart_head s) as [->|(c & t & -> & Hc)]; [reflexivity|].
  cbn [trimStart]. rewrite Hc. reflexivity.
Qed.

Lemma trimEnd_idempotent (s : jsstring) : trimEnd (trimEnd s) = trimEnd s.
Proof.
  unfold trimEnd. rewrite rev_involutive, trimStart_idempotent.
  reflexivity.
Qed.

Lemma trim_idempotent (s : jsstring) : trim (trim s) = trim s.
Proof.
  unfold trim.
  destruct (trimStart_head s) as [->|(c & t & -> & Hc)]; [reflexivity|].
  rewrite (trimEnd_cons_kept _ _ Hc). cbn [trimStart]. rewrite Hc.
  rewrite (trimEnd_cons_kept _ _ Hc), trimEnd_idempotent. reflexivity.
Qed.

(** X11.  A single analysis of a blank text box does nothing.  Otherwise,
    with a credential, it sends exactly one request, which holds exactly one
    text: the content of the box without its surrounding white space, and
    the box is emptied. *)
Theorem handleSingleAnalyze_one_request
  (JSON_parse : jsstring -> option json) (remote : nat -> Request -> ApiReply)
  (generateId : nat -> nat -> jsstring) (Date_now : nat -> nat -> N)
  (textInput : jsstring) (s : AppState) :
  (trim textInput = [] ->
   handleSingleAnalyze JSON_parse remote generateId Date_now textInput s
   = (Some (start s), textInput))
  /\ (trim textInput <> [] -> apiKey s <> [] ->
      exists run,
        handleSingleAnalyze JSON_parse remote generateId Date_now textInput s
        = (Some run, [])
        /\ network (cur run)
           = network s
             ++ [{| req_apiKey := apiKey s; req_texts := [trim textInput] |}]
        /\ trim (trim textInput) = trim textInput).
Proof.
  unfold handleSingleAnalyze. split.
  - intros ->. reflexivity.
  - intros Ht Hkey.
    destruct (processBatch_requests JSON_parse remote generateId Date_now
                [trim textInput] s)
      as (run & m & Hrun & Hnet & Hm & Hone).
    specialize (Hone Hkey ltac:(discriminate)).
    change (chunkCount [trim textInput]) with 1 in Hm.
    assert (m = 1) as -> by lia.
    exists run. destruct (trim textInput) as [|c t] eqn:Htrim; [congruence|].
    rewrite Hrun. split; [reflexivity|]. split; [exact Hnet|].
    rewrite <- Htrim. apply trim_idempotent.
Qed.

Lemma handleSingleAnalyze_one_request_witness :
  exists run,
    handleSingleAnalyze Samples.parse (fun _ _ => Samples.respond (lit "[1]"))
      Samples.ids Samples.clock (lit "  great stuff ") Samples.idle
    = (Some run, [])
    /\ network (cur run)
       = [{| req_apiKey := Samples.key;
             req_texts := [lit "great stuff"] |}].
Proof.
  destruct (handleSingleAnalyze_one_request Samples.parse
              (fun _ _ => Samples.respond (lit "[1]"))
              Samples.ids Samples.clock (lit "  great stuff ") Samples.idle)
    as [_ H].
  destruct H as (run & Hrun & Hnet & _);
    try (vm_compute; discriminate).
  exists run. split; [exact Hrun|]. rewrite Hnet. reflexivity.
Defined.

(** ** The key dialog *)

Lemma startsWith_split (p s : jsstring) :
  startsWith p s = true -> exists rest, s = p ++ rest.
Proof.
  revert s; induction p as [|a p IH]; intros s H; [exists s; reflexivity|].
  destruct s as [|b s]; [discriminate|]. cbn [startsWith] in H.
  apply andb_true_iff in H as [Hab H]. apply N.eqb_eq in Hab. subst b.
  destruct (IH s H) as [rest ->]. exists rest. reflexivity.
Qed.

Lemma trim_keeps_AIza (rest : jsstring) :
  trim (lit "AIza" ++ rest) = lit "AIza" ++ trimEnd rest.
Proof.
  unfold trim. change (lit "AIza" ++ rest)
    with (65%N :: 73%N :: 122%N :: 97%N :: rest).
  cbn [trimStart]. change (isWhiteSpace 65%N) with false. cbn iota.
  rewrite !trimEnd_cons_kept by reflexivity. reflexivity.
Qed.

(** X12.  A press on a disabled Save button changes nothing.  A press on an
    enabled one stores the typed key without its surrounding white space;
    the stored key is not empty and starts with AIza; the dialog is closed
    and the error panel emptied. *)
Theorem pressSave_stores_a_formatted_key (key : jsstring) (run : Run) :
  (saveDisabled key = true -> pressSave key run = run)
  /\ (saveDisabled key = false ->
      pressSave key run = onClose (onSave (trim key) run)
      /\ apiKey (cur (pressSave key run)) = trim key
      /\ trim key <> []
      /\ startsWith (lit "AIza") (trim key) = true
      /\ trim (trim key) = trim key
      /\ isApiKeyModalOpen (cur (pressSave key run)) = false
      /\ errorDetails (cur (pressSave key run)) = None).
Proof.
  unfold pressSave. split; [intros ->; reflexivity|].
  intros Hen. rewrite Hen. unfold saveDisabled in Hen.
  apply orb_false_iff in Hen as [Hblank Hvalid].
  apply negb_false_iff in Hvalid.
  assert (trim key <> []) as Hne.
  { intros E. rewrite E in Hblank. discriminate. }
  assert (startsWith (lit "AIza") key = true) as Hpre.
  { unfold isValidFormat in Hvalid. apply negb_true_iff in Hvalid.
    destruct key as [|c key]; [exfalso; apply Hne; reflexivity|].
    cbn [length Nat.ltb Nat.leb andb] in Hvalid.
    apply negb_false_iff in Hvalid. exact Hvalid. }
  destruct (startsWith_split _ _ Hpre) as [rest ->].
  assert (saveClick (lit "AIza" ++ rest) run
          = onClose (onSave (trim (lit "AIza" ++ rest)) run)) as ->.
  { unfold saveClick. revert Hne.
    destruct (trim (lit "AIza" ++ rest)); [congruence|reflexivity]. }
  split; [reflexivity|]. split; [reflexivity|]. split; [exact Hne|].
  split; [rewrite trim_keeps_AIza; apply startsWith_app|].
  split; [apply trim_idempotent|]. split; reflexivity.
Qed.

Lemma pressSave_stores_a_formatted_key_witness :
  apiKey (cur (pressSave (lit "AIzaSyExample  ") (start Samples.idle)))
  = lit "AIzaSyExample".
Proof.
  destruct (pressSave_stores_a_formatted_key (lit "AIzaSyExample  ")
              (start Samples.idle)) as [_ H].
  destruct H as (_ & -> & _); reflexivity.
Defined.

(** ** Deleting a result *)

Lemma filter_twice {A : Type} (f g : A -> bool) (l : list A) :
  filter f (filter g l) = filter g (filter f l).
Proof.
  induction l as [|x l IH]; [reflexivity|]. cbn [filter].
  destruct (f x) eqn:Hf, (g x) eqn:Hg; cbn [filter];
    rewrite ?Hf, ?Hg, IH; reflexivity.
Qed.

Lemma filter_again {A : Type} (f : A -> bool) (l : list A) :
  filter f (filter f l) = filter f l.
Proof.
  induction l as [|x l IH]; [reflexivity|]. cbn [filter].
  destruct (f x) eqn:Hf; cbn [filter]; rewrite ?Hf, IH; reflexivity.
Qed.

Lemma length_filter_split {A : Type} (f : A -> bool) (l : list A) :
  length (filter (fun x => negb (f x)) l) + length (filter f l) = length l.
Proof.
  induction l as [|x l IH]; [reflexivity|]. cbn [filter].
  destruct (f x); cbn [negb length]; lia.
Qed.

(** X13.  Deleting by id removes every result that carries the id, also
    when several results share it, and nothing else: the other results stay
    in their order, the same rows disappear from every filtered view, deleting
    again changes nothing, two deletions commute, and the credential, the
    counters and the request log are untouched. *)
Theorem onDelete_removes_every_match (target : jsstring) (s : AppState) :
  Forall (fun r => id r <> target) (results (onDelete target s))
  /\ (forall r, id r <> target ->
      (In r (results (onDelete target s)) <-> In r (results s)))
  /\ length (results (onDelete target s))
     + length (filter (fun r => jsstring_eqb (id r) target) (results s))
     = length (results s)
  /\ (forall f,
      filteredResults f (results (onDelete target s))
      = filter (fun r => negb (jsstring_eqb (id r) target))
          (filteredResults f (results s)))
  /\ onDelete target (onDelete target s) = onDelete target s
  /\ (forall other,
      onDelete target (onDelete other s) = onDelete other (onDelete target s))
  /\ apiKey (onDelete target s) = apiKey s
  /\ batchProgress (onDelete target s) = batchProgress s
  /\ network (onDelete target s) = network s.
Proof.
  unfold onDelete, setResults. cbn [results apiKey batchProgress network
    isApiKeyModalOpen isProcessing errorDetails toast].
  split; [|split; [|split; [|split; [|split; [|split]]]]].
  - apply Forall_forall. intros r Hr. apply filter_In in Hr as [_ Hr].
    apply negb_true_iff in Hr. intros E.
    apply jsstring_eqb_eq in E. congruence.
  - intros r Hr. rewrite filter_In. split; [intros [H _]; exact H|].
    intros H. split; [exact H|]. apply negb_true_iff.
    destruct (jsstring_eqb (id r) target) eqn:E; [|reflexivity].
    apply jsstring_eqb_eq in E. congruence.
  - apply (length_filter_split (fun r => jsstring_eqb (id r) target)).
  - intros [|t]; cbn [filteredResults]; [reflexivity|apply filter_twice].
  - rewrite filter_again. reflexivity.
  - intros other. rewrite filter_twice. reflexivity.
  - repeat split.
Qed.

Lemma onDelete_removes_every_match_witness :
  map id (results (onDelete (lit "a")
                     (setResults (fun _ => MoreSamples.mixedResults)
                        Samples.idle)))
  = [lit "b"].
Proof.
  destruct (onDelete_removes_every_match (lit "a")
              (setResults (fun _ => MoreSamples.mixedResults) Samples.idle))
    as (_ & Hkeep & _).
  assert (In (MoreSamples.withSentiment (JString (lit "Mixed")) (lit "b"))
            (results (onDelete (lit "a")
                        (setResults (fun _ => MoreSamples.mixedResults)
                           Samples.idle)))) as Hin.
  { apply Hkeep; [vm_compute; discriminate|]. right. left. reflexivity. }
  clear Hin. reflexivity.
Defined.

(** ** The filtered views *)

Lemma hasSentiment_iff (t : SentimentType) (r : AnalysisResult) :
  hasSentiment t r = true
  <-> n_sentiment (fields r) = JString (sentimentValue t).
Proof.
  unfold hasSentiment. destruct (n_sentiment (fields r));
    try (split; [discriminate|congruence]).
  rewrite jsstring_eqb_eq. split; [intros ->; reflexivity|congruence].
Qed.

Lemma sentimentValue_injective (a b : SentimentType) :
  sentimentValue a = sentimentValue b -> a = b.
Proof. destruct a, b; intros H; try reflexivity; discriminate H. Qed.

Lemma viewsOf_known (r : AnalysisResult) :
  viewsOf r <= 1 /\ (viewsOf r = 1 <-> knownSentiment r).
Proof.
  unfold viewsOf, knownSentiment.
  destruct (hasSentiment POSITIVE r) eqn:HP;
    destruct (hasSentiment NEGATIVE r) eqn:HN;
    destruct (hasSentiment NEUTRAL r) eqn:HU;
    repeat match goal with
           | H : hasSentiment _ _ = true |- _ => apply hasSentiment_iff in H
           end;
    try (exfalso;
         match goal with
         | H1 : ?n = JString (sentimentValue ?a),
           H2 : ?n = JString (sentimentValue ?b) |- _ =>
             assert (a = b)
               by (apply sentimentValue_injective; congruence);
             discriminate
         end).
  - split; [lia|]. split; [intros _; exists POSITIVE; assumption|lia].
  - split; [lia|]. split; [intros _; exists NEGATIVE; assumption|lia].
  - split; [lia|]. split; [intros _; exists NEUTRAL; assumption|lia].
  - split; [lia|]. split; [lia|]. intros [t Ht].
    apply hasSentiment_iff in Ht. destruct t; congruence.
Qed.

Lemma views_sum (results : list AnalysisResult) :
  length (filteredResults (Only POSITIVE) results)
  + length (filteredResults (Only NEGATIVE) results)
  + length (filteredResults (Only NEUTRAL) results)
  = list_sum (map viewsOf results).
Proof.
  cbn [filteredResults].
  induction results as [|r results IH]; [reflexivity|].
  change (list_sum (map viewsOf (r :: results)))
    with (viewsOf r + list_sum (map viewsOf results)).
  cbn [filter]. rewrite <- IH. unfold viewsOf.
  destruct (hasSentiment POSITIVE r), (hasSentiment NEGATIVE r),
    (hasSentiment NEUTRAL r); cbn [length]; lia.
Qed.

Lemma views_sum_bound (results : list AnalysisResult) :
  list_sum (map viewsOf results) <= length results
  /\ (list_sum (map viewsOf results) = length results
      <-> Forall knownSentiment results).
Proof.
  induction results as [|r results [IHle IHeq]].
  - split; [reflexivity|]. split; [constructor|reflexivity].
  - change (list_sum (map viewsOf (r :: results)))
      with (viewsOf r + list_sum (map viewsOf results)).
    cbn [length].
    destruct (viewsOf_known r) as [Hle Hone]. split; [lia|]. split.
    + intros H. constructor; [apply Hone; lia|apply IHeq; lia].
    + intros H. inversion H as [|? ? Hr Hrest]; subst.
      apply Hone in Hr. apply IHeq in Hrest. lia.
Qed.

(** X14.  The three sentiment views show disjoint parts of the results, in
    their order; a result whose sentiment is none of the three values is in
    no view but the one of all results, so the three views together show
    every result exactly when every sentiment is one of the three values. *)
Theorem filtered_views_cover_known_sentiments
  (results : list AnalysisResult) :
  filteredResults ALL results = results
  /\ (forall t r,
      In r (filteredResults (Only t) results)
      <-> In r results
          /\ n_sentiment (fields r) = JString (sentimentValue t))
  /\ (forall t u r,
      In r (filteredResults (Only t) results) ->
      In r (filteredResults (Only u) results) -> t = u)
  /\ length (filteredResults (Only POSITIVE) results)
     + length (filteredResults (Only NEGATIVE) results)
     + length (filteredResults (Only NEUTRAL) results)
     <= totalAnalyzed results
  /\ (length (filteredResults (Only POSITIVE) results)
      + length (filteredResults (Only NEGATIVE) results)
      + length (filteredResults (Only NEUTRAL) results)
      = totalAnalyzed results
      <-> Forall knownSentiment results).
Proof.
  split; [reflexivity|]. split; [|split].
  - intros t r. cbn [filteredResults]. rewrite filter_In, hasSentiment_iff.
    reflexivity.
  - intros t u r Ht Hu. cbn [filteredResults] in *.
    apply filter_In in Ht as [_ Ht]. apply filter_In in Hu as [_ Hu].
    apply hasSentiment_iff in Ht. apply hasSentiment_iff in Hu.
    apply sentimentValue_injective. congruence.
  - rewrite views_sum. apply views_sum_bound.
Qed.

Lemma filtered_views_cover_known_sentiments_witness :
  length (filteredResults (Only POSITIVE) MoreSamples.mixedResults)
  + length (filteredResults (Only NEGATIVE) MoreSamples.mixedResults)
  + length (filteredResults (Only NEUTRAL) MoreSamples.mixedResults)
  <> totalAnalyzed MoreSamples.mixedResults.
Proof.
  destruct (filtered_views_cover_known_sentiments MoreSamples.mixedResults)
    as (_ & _ & _ & _ & Hall).
  intros E. apply Hall in E.
  apply Forall_inv_tail, Forall_inv in E. destruct E as [t Ht].
  destruct t; vm_compute in Ht; discriminate Ht.
Defined.

(** ** The pie of the sentiments *)

Lemma countSentiments_strings (Number_toString : number -> jsstring)
  (results : list AnalysisResult) (acc : SentimentCounts) :
  Forall (fun r => isString (n_sentiment (fields r))) results ->
  countSentiments Number_toString results acc
  = Normal
      {| positives :=
           positives acc + length (filteredResults (Only POSITIVE) results);
         neutrals :=
           neutrals acc + length (filteredResults (Only NEUTRAL) results);
         negatives :=
           negatives acc + length (filteredResults (Only NEGATIVE) results) |}.
Proof.
  intros Hall. revert acc. cbn [filteredResults].
  induction Hall as [|r results [k Hk] _ IH]; intros acc.
  - cbn. rewrite !Nat.add_0_r. destruct acc; reflexivity.
  - cbn [countSentiments filter]. rewrite Hk. cbn [toString bind].
    rewrite IH. unfold hasSentiment, bumpCount. rewrite Hk.
    destruct (jsstring_eqb k (sentimentValue POSITIVE)) eqn:EP.
    { apply jsstring_eqb_eq in EP. subst k.
      cbn [positives neutrals negatives].
      change (jsstring_eqb (sentimentValue POSITIVE) (sentimentValue NEUTRAL))
        with false.
      change (jsstring_eqb (sentimentValue POSITIVE) (sentimentValue NEGATIVE))
        with false.
      cbn [length]. f_equal. f_equal; lia. }
    destruct (jsstring_eqb k (sentimentValue NEUTRAL)) eqn:EU.
    { apply jsstring_eqb_eq in EU. subst k.
      cbn [positives neutrals negatives].
      change (jsstring_eqb (sentimentValue NEUTRAL) (sentimentValue NEGATIVE))
        with false.
      cbn [length]. f_equal. f_equal; lia. }
    destruct (jsstring_eqb k (sentimentValue NEGATIVE)) eqn:EN;
      cbn [positives neutrals negatives length]; f_equal; f_equal; lia.
Qed.

(** X15.  For results whose sentiment is a string, the pie has one slice
    for each of Positive, Neutral and Negative that some result carries, in
    that order, valued by the number of results the matching view shows; a
    sentiment outside the three values is counted in no slice. *)
Theorem pieData_counts_the_views (Number_toString : number -> jsstring)
  (results : list AnalysisResult) :
  Forall (fun r => isString (n_sentiment (fields r))) results ->
  pieData Number_toString results
  = Normal
      (filter (fun d => 0 <? slice_value d)
         (map (fun t =>
                 sliceOf t (length (filteredResults (Only t) results)))
            [POSITIVE; NEUTRAL; NEGATIVE])).
Proof.
  intros Hall. unfold pieData.
  rewrite (countSentiments_strings _ _ _ Hall). reflexivity.
Qed.

Lemma pieData_counts_the_views_witness :
  pieData Samples.numberText MoreSamples.mixedResults
  = Normal [sliceOf POSITIVE 1; sliceOf NEGATIVE 1].
Proof.
  rewrite (pieData_counts_the_views Samples.numberText
             MoreSamples.mixedResults).
  - reflexivity.
  - repeat constructor; eexists; reflexivity.
Defined.

(** ** The pattern of the keywords *)

Lemma insertByLength_perm (k : jsstring) (l : list jsstring) :
  Permutation (k :: l) (insertByLength k l).
Proof.
  induction l as [|x l IH]; [reflexivity|]. cbn [insertByLength].
  destruct (length k <? length x); [|reflexivity].
  rewrite perm_swap. apply perm_skip. exact IH.
Qed.

Lemma insertByLength_sorted (k : jsstring) (l : list jsstring) :
  StronglySorted byLength l -> StronglySorted byLength (insertByLength k l).
Proof.
  induction 1 as [|x l Hs IH Hx]; cbn [insertByLength].
  - repeat constructor.
  - destruct (Nat.ltb_spec (length k) (length x)) as [Hlt|Hge].
    + constructor; [exact IH|].
      apply (Permutation_Forall (insertByLength_perm k l)).
      constructor; [unfold byLength; lia|exact Hx].
    + constructor; [constructor; assumption|].
      constructor; [exact Hge|].
      eapply Forall_impl; [|exact Hx]. unfold byLength. intros y Hy. lia.
Qed.

Lemma insertByLength_stable (n : nat) (k : jsstring) (l : list jsstring) :
  filter (fun x => length x =? n) (insertByLength k l)
  = filter (fun x => length x =? n) (k :: l).
Proof.
  induction l as [|x l IH]; [reflexivity|].
  cbn [insertByLength].
  destruct (Nat.ltb_spec (length k) (length x)) as [Hlt|Hge]; [|reflexivity].
  cbn [filter] in *. rewrite IH.
  destruct (Nat.eqb_spec (length k) n) as [Hk|Hk]; [|reflexivity].
  destruct (Nat.eqb_spec (length x) n) as [Hx|Hx]; [lia|reflexivity].
Qed.

(** X16.  The keywords are tried longest first: the sorted keywords are the
    given ones in another order, no keyword is longer than one before it,
    and keywords of equal length keep the order they were given in. *)
Theorem sortedKeywords_longest_first (keywords : list jsstring) :
  Permutation keywords (sortedKeywords keywords)
  /\ StronglySorted byLength (sortedKeywords keywords)
  /\ (forall n,
      filter (fun k => length k =? n) (sortedKeywords keywords)
      = filter (fun k => length k =? n) keywords).
Proof.
  unfold sortedKeywords. induction keywords as [|k keywords (IHp & IHs & IHf)].
  - repeat split; constructor.
  - cbn [fold_right]. split; [|split].
    + rewrite <- insertByLength_perm. apply perm_skip. exact IHp.
    + apply insertByLength_sorted. exact IHs.
    + intros n. rewrite insertByLength_stable. cbn [filter].
      rewrite IHf. reflexivity.
Qed.

Lemma special_not_backslash (c : char) :
  isRegExpSpecial c = false -> (c =? BACKSLASH)%N = false.
Proof.
  intros H. destruct (N.eqb_spec c BACKSLASH) as [->|_]; [|reflexivity].
  discriminate H.
Qed.

Lemma isRegExpSpecial_class (c : char) :
  isRegExpSpecial c = true
  <-> In c (lit ".*+?^${}()|[]" ++ [BACKSLASH]).
Proof.
  unfold isRegExpSpecial. rewrite existsb_exists. split.
  - intros (x & Hin & Heq). apply N.eqb_eq in Heq. subst x. exact Hin.
  - intros Hin. exists c. split; [exact Hin|apply N.eqb_refl].
Qed.

Lemma escapeRegExp_app (a b : jsstring) :
  escapeRegExp (a ++ b) = escapeRegExp a ++ escapeRegExp b.
Proof.
  induction a as [|c a IH]; [reflexivity|].
  cbn [app escapeRegExp]. rewrite IH.
  destruct (isRegExpSpecial c); reflexivity.
Qed.

Lemma length_escapeRegExp (k : jsstring) :
  length (escapeRegExp k) = length k + length (filter isRegExpSpecial k).
Proof.
  induction k as [|c k IH]; [reflexivity|].
  cbn [escapeRegExp filter]. destruct (isRegExpSpecial c); cbn [length]; lia.
Qed.

(** X17.  Escaping a keyword puts a backslash before each occurrence of the
    14 characters . * + ? ^ $ { } ( ) | [ ] and backslash, and changes
    nothing else: every occurrence of one of the 14 becomes a backslash and
    that character, every other character stays as it is, and the pieces
    before and after are escaped on their own; the escaped keyword is longer
    by the number of special characters; reading the backslashes back gives
    the keyword; a keyword without special characters is left as it is. *)
Theorem escapeRegExp_round_trip (k : jsstring) :
  (forall a c b, k = a ++ c :: b ->
     In c (lit ".*+?^${}()|[]" ++ [BACKSLASH]) ->
     escapeRegExp k = escapeRegExp a ++ BACKSLASH :: c :: escapeRegExp b)
  /\ (forall a c b, k = a ++ c :: b ->
      ~ In c (lit ".*+?^${}()|[]" ++ [BACKSLASH]) ->
      escapeRegExp k = escapeRegExp a ++ c :: escapeRegExp b)
  /\ (forall c, isRegExpSpecial c = true
                <-> In c (lit ".*+?^${}()|[]" ++ [BACKSLASH]))
  /\ length (escapeRegExp k) = length k + length (filter isRegExpSpecial k)
  /\ unescapeRegExp (escapeRegExp k) = k
  /\ (forallb (fun c => negb (isRegExpSpecial c)) k = true ->
      escapeRegExp k = k)
  /\ length k <= length (escapeRegExp k) <= 2 * length k.
Proof.
  split; [|split; [|split; [|split]]].
  - intros a c b -> Hin. apply isRegExpSpecial_class in Hin.
    rewrite escapeRegExp_app. cbn [escapeRegExp]. rewrite Hin. reflexivity.
  - intros a c b -> Hout.
    assert (isRegExpSpecial c = false) as Hc.
    { destruct (isRegExpSpecial c) eqn:E; [|reflexivity].
      exfalso. apply Hout, isRegExpSpecial_class. exact E. }
    rewrite escapeRegExp_app. cbn [escapeRegExp]. rewrite Hc. reflexivity.
  - exact isRegExpSpecial_class.
  - apply length_escapeRegExp.
  - induction k as [|c k (IHu & IHn & IHl)]; [repeat split; cbn; lia|].
    cbn [escapeRegExp]. destruct (isRegExpSpecial c) eqn:Hc.
    + split; [|split].
      * cbn [unescapeRegExp]. rewrite N.eqb_refl, IHu. reflexivity.
      * cbn [forallb]. rewrite Hc. discriminate.
      * cbn [length]. lia.
    + split; [|split].
      * cbn [unescapeRegExp]. rewrite (special_not_backslash _ Hc), IHu.
        reflexivity.
      * cbn [forallb]. rewrite Hc. cbn [negb andb]. intros H.
        rewrite (IHn H). reflexivity.
      * cbn [length]. lia.
Qed.

Lemma escapeRegExp_round_trip_witness :
  escapeRegExp (lit "c++ (new)")
  = lit "c" ++ [BACKSLASH] ++ lit "+" ++ [BACKSLASH] ++ lit "+ "
      ++ [BACKSLASH] ++ lit "(new" ++ [BACKSLASH] ++ lit ")".
Proof.
  destruct (escapeRegExp_round_trip (lit "c++ (new)")) as (Hin & _).
  rewrite (Hin (lit "c") 43%N (lit "+ (new)") eq_refl)
    by (vm_compute; tauto).
  reflexivity.
Defined.

(** ** The toasts of an import *)



(** ** The cells of the export that are not escaped *)

Lemma unescapeQuotes_count_bounded (n : nat) (s t : jsstring) :
  length s <= n ->
  unescapeQuotes s = Some t -> countQuotes s = 2 * countQuotes t.
Proof.
  unfold countQuotes. revert s t; induction n as [|n IH]; intros s t Hlen.
  - destruct s; [|cbn in Hlen; lia]. intros [= <-]. reflexivity.
  - destruct s as [|c rest]; [intros [= <-]; reflexivity|].
    cbn [length] in Hlen. cbn [unescapeQuotes].
    destruct (c =? DQUOTE)%N eqn:Hc.
    + destruct rest as [|d rest']; [discriminate|].
      destruct (d =? DQUOTE)%N eqn:Hd; [|discriminate].
      destruct (unescapeQuotes rest') as [u|] eqn:Hu; [|discriminate].
      intros [= <-]. cbn [filter]. rewrite Hc, Hd. cbn [length].
      change (DQUOTE =? DQUOTE)%N with true. cbn [length].
      rewrite (IH rest' u); [lia| |exact Hu]. cbn [length] in Hlen. lia.
    + destruct (unescapeQuotes rest) as [u|] eqn:Hu; [|discriminate].
      intros [= <-]. cbn [filter]. rewrite Hc.
      apply (IH rest u); [lia|exact Hu].
Qed.

Lemma unescapeQuotes_count (s t : jsstring) :
  unescapeQuotes s = Some t -> countQuotes s = 2 * countQuotes t.
Proof. apply (unescapeQuotes_count_bounded (length s)). lia. Qed.

(** X19.  Only the text and the explanation are escaped in the export.  The
    keywords cell holds the keywords joined as they are between quotation
    marks, so when a keyword contains a quotation mark the cell does not
    read back to the keywords. *)
Theorem csvRow_keywords_not_escaped (Number_toString : number -> jsstring)
  (r : AnalysisResult) (row : list json) :
  csvRow Number_toString r = Normal row ->
  Forall isString (n_keywords (fields r)) ->
  nth 6 row JNull
  = JString (quoted (join (lit "; ") (stringsOf (n_keywords (fields r)))))
  /\ (0 < countQuotes (join (lit "; ") (stringsOf (n_keywords (fields r)))) ->
      unescapeQuotes (join (lit "; ") (stringsOf (n_keywords (fields r))))
      <> Some (join (lit "; ") (stringsOf (n_keywords (fields r))))).
Proof.
  intros Hrow Hk. split.
  - unfold csvRow, joinValues in Hrow.
    rewrite (mapM_joinElement_strings _ _ Hk) in Hrow.
    destruct (text r); [|discriminate]. cbn [bind] in Hrow.
    destruct (n_explanation (fields r)); try discriminate.
    cbn [bind] in Hrow. injection Hrow as <-. reflexivity.
  - intros Hpos E. apply unescapeQuotes_count in E. lia.
Qed.

Lemma csvRow_keywords_not_escaped_witness :
  unescapeQuotes (join (lit "; ") [Samples.quip]) <> Some Samples.quip.
Proof.
  destruct (csvRow_keywords_not_escaped Samples.numberText
              {| id := id Samples.result; text := text Samples.result;
                 fields :=
                   {| n_sentiment := JString (lit "Positive");
                      n_emotion := JString (lit "Joy");
                      n_emotionEmoji := JString DEFAULT_EMOJI;
                      n_isSarcastic := false;
                      n_confidence := HALF;
                      n_keywords := [JString Samples.quip];
                      n_explanation := JString Samples.quip |};
                 timestamp := 0%N |}
              [JString (lit "a1b2c3d");
               JString (quoted (escapeQuotes Samples.quip));
               JString (lit "Positive"); JString (lit "Joy");
               JString (lit "No"); JNumber HALF;
               JString (quoted Samples.quip);
               JString (quoted (escapeQuotes Samples.quip))])
    as [_ H].
  - reflexivity.
  - repeat constructor. eexists. reflexivity.
  - apply H. vm_compute. lia.
Defined.

(** ** The credential between batches *)

Lemma pressSave_enabled (key : jsstring) (run : Run) :
  saveDisabled key = false ->
  trim key <> []
  /\ pressSave key run = onClose (onSave (trim key) run).
Proof.
  intros Hen. unfold pressSave. rewrite Hen. unfold saveDisabled in Hen.
  apply orb_false_iff in Hen as [Hblank _].
  assert (trim key <> []) as Hne.
  { intros E. rewrite E in Hblank. discriminate. }
  split; [exact Hne|]. unfold saveClick. revert Hne.
  destruct (trim key); [congruence|reflexivity].
Qed.

(** X20.  Without a credential a batch sends nothing: it opens the key
    dialog and leaves the results and the counters as they are.  Once a key
    is saved through the dialog, the next batch of texts is submitted, and
    every request of it carries the saved key. *)
Theorem credential_gates_the_batch
  (JSON_parse : jsstring -> option json) (remote : nat -> Request -> ApiReply)
  (generateId : nat -> nat -> jsstring) (Date_now : nat -> nat -> N)
  (texts : list jsstring) :
  (forall s, apiKey s = [] ->
     exists run,
       processBatch JSON_parse remote generateId Date_now texts s = Some run
       /\ network (cur run) = network s
       /\ isApiKeyModalOpen (cur run) = true
       /\ results (cur run) = results s
       /\ batchProgress (cur run) = batchProgress s)
  /\ (forall key before, saveDisabled key = false -> texts <> [] ->
      exists run m,
        processBatch JSON_parse remote generateId Date_now texts
          (cur (pressSave key before)) = Some run
        /\ 1 <= m
        /\ network (cur run)
           = network (cur before) ++ requestsUpTo (trim key) texts m).
Proof.
  split.
  - intros s Hk. eexists. unfold processBatch. rewrite Hk.
    split; [reflexivity|]. repeat split.
  - intros key before Hen Ht.
    destruct (pressSave_enabled key before Hen) as [Hne ->].
    destruct (processBatch_requests JSON_parse remote generateId Date_now
                texts (cur (onClose (onSave (trim key) before))))
      as (run & m & Hrun & Hnet & _ & Hone).
    exists run, m. split; [exact Hrun|].
    split; [apply Hone; [exact Hne|exact Ht]|exact Hnet].
Qed.

Lemma credential_gates_the_batch_witness :
  exists run,
    processBatch Samples.parse (fun _ _ => Samples.respond (lit "[1]"))
      Samples.ids Samples.clock (Samples.texts 3)
      (setApiKey [] Samples.idle)
    = Some run
    /\ network (cur run) = [].
Proof.
  destruct (credential_gates_the_batch Samples.parse
              (fun _ _ => Samples.respond (lit "[1]"))
              Samples.ids Samples.clock (Samples.texts 3)) as [H _].
  destruct (H (setApiKey [] Samples.idle) eq_refl) as (run & Hrun & Hnet & _).
  exists run. split; [exact Hrun|exact Hnet].
Defined.
